(** * Recording-session coordinator of the meeting note taker extension

  A shallow embedding of [src/extension/offscreen.js] (the capture
  pipeline: stream, encoder rotation, teardown) and of the service
  worker part of [src/extension/background.js] (the session
  orchestrator: start/stop, the WebSocket handshake, the relay of audio
  frames and of server push events), with the stop button and the notes
  panel of the popup script that the same file holds, followed by the
  properties of the specification that concern them.

  Conventions of the embedding.
  - Every JavaScript global of a script is a field of a state record
    that keeps the global's name.
  - A function that touches globals or the platform is a computation in
    the monad [Exec]: it transforms the state, logs the platform calls
    it makes (in program order) and completes by returning, by throwing,
    or by waiting for a promise that nobody settles.
  - What the platform answers (a rejected promise, the frames that
    arrive on the socket, a timer coming due) is an explicit argument.
  - Console output is not part of the logged effects. *)

From stdpp Require Import base list strings.

Open Scope string_scope.
Open Scope nat_scope.
Open Scope list_scope.
Open Scope stdpp_scope.

(** ** Completions and the execution monad *)

(** How an (async) function call ends. [Hang] is an [await] on a promise
  that is never resolved nor rejected. *)
Inductive Completion (A : Type) : Type :=
| Return (a : A)
| Throw (e : string)
| Hang.
Arguments Return {A} a.
Arguments Throw {A} e.
Arguments Hang {A}.

(** What a platform promise settles to: fulfilled with a value, or rejected
  with an error message. *)
Inductive Outcome (A : Type) : Type :=
| Fulfilled (a : A)
| Rejected (e : string).
Arguments Fulfilled {A} a.
Arguments Rejected {A} e.

Definition Exec (St Eff A : Type) : Type := St → St * list Eff * Completion A.

Section ExecMonad.
Context {St Eff : Type}.

#[global] Instance Exec_ret : MRet (Exec St Eff) :=
  λ A a s, (s, [], Return a).

#[global] Instance Exec_bind : MBind (Exec St Eff) :=
  λ A B f m s,
    match m s with
    | (s1, e1, Return a) =>
        match f a s1 with (s2, e2, r) => (s2, e1 ++ e2, r) end
    | (s1, e1, Throw e) => (s1, e1, Throw e)
    | (s1, e1, Hang) => (s1, e1, Hang)
    end.

Definition get : Exec St Eff St := λ s, (s, [], Return s).
Definition modify (f : St → St) : Exec St Eff unit := λ s, (f s, [], Return tt).
Definition emit (e : Eff) : Exec St Eff unit := λ s, (s, [e], Return tt).
Definition throw {A} (e : string) : Exec St Eff A := λ s, (s, [], Throw e).
Definition hang {A} : Exec St Eff A := λ s, (s, [], Hang).

(** [await] of a platform promise whose outcome is known. *)
Definition await {A} (o : Outcome A) : Exec St Eff A :=
  match o with
  | Fulfilled a => mret a
  | Rejected e => throw e
  end.

(** [try { m } catch (error) { h error.message }]: state changes and
    effects made before the throw stay. *)
Definition try_catch {A} (m : Exec St Eff A) (h : string → Exec St Eff A)
  : Exec St Eff A :=
  λ s,
    match m s with
    | (s1, e1, Throw e) =>
        match h e s1 with (s2, e2, r) => (s2, e1 ++ e2, r) end
    | other => other
    end.

(** [if (c) { m }] with no else branch. *)
Definition when (c : bool) (m : Exec St Eff unit) : Exec St Eff unit :=
  if c then m else mret tt.

(** [array.forEach(f)]. *)
Fixpoint forEach {A} (f : A → Exec St Eff unit) (l : list A) : Exec St Eff unit :=
  match l with
  | [] => mret tt
  | x :: l => f x;; forEach f l
  end.

Definition state_of {A} (x : St * list Eff * Completion A) : St := x.1.1.
Definition effects_of {A} (x : St * list Eff * Completion A) : list Eff := x.1.2.
Definition completion_of {A} (x : St * list Eff * Completion A) : Completion A := x.2.
End ExecMonad.

(** ** Messages between the extension's contexts *)

(** An encoded audio payload: the bytes of a [Blob]. The base64 text that
  [blobToBase64] produces is an injective rendering of these bytes and is
  carried as the bytes themselves. *)
Definition Blob : Type := list Byte.byte.

(** The envelope of [chrome.runtime.sendMessage] as far as the audio
  listener reads it: [type], [target], [data], [format]; an absent
  property is [None]. *)
Record Message : Type := mkMessage {
  msg_type : string;
  msg_target : option string;
  msg_data : Blob;
  msg_format : option string;
}.

(** ** offscreen.js: the capture pipeline *)

Module Offscreen.

(** [MediaRecorder.state]. *)
Inductive RecorderState : Type := inactive | recording | paused.

#[global] Instance RecorderState_eq_dec : EqDecision RecorderState.
Proof. solve_decision. Defined.

(** One [new MediaRecorder(mediaStream, options)] together with the
    [chunks] array its two handlers close over. [rec_flushing] holds
    between [stop()] and the [dataavailable]/[stop] events that the
    platform fires for it. *)
Record Recorder : Type := mkRecorder {
  rec_stream : nat;
  rec_state : RecorderState;
  rec_chunks : list Blob;
  rec_flushing : bool;
}.

Record MediaStream : Type := mkStream {
  stream_id : nat;
  stream_tracks : list nat;
}.

(** The four globals of the script, and the objects they refer to: every
    recorder constructed so far (a recorder is named by its index) and
    the [setTimeout] callbacks not yet run, each with the [recorder] its
    closure captured. Timer ids are positive, as on the platform, so
    that [if (recordingInterval)] tests for [null]. *)
Record Doc : Type := mkDoc {
  mediaRecorder : option nat;
  mediaStream : option MediaStream;
  audioContext : option nat;
  recordingInterval : option positive;
  recorders : list Recorder;
  timers : list (positive * nat);
  next_timer : positive;
}.

Definition set_mediaRecorder (v : option nat) (d : Doc) : Doc :=
  mkDoc v (mediaStream d) (audioContext d) (recordingInterval d)
        (recorders d) (timers d) (next_timer d).
Definition set_mediaStream (v : option MediaStream) (d : Doc) : Doc :=
  mkDoc (mediaRecorder d) v (audioContext d) (recordingInterval d)
        (recorders d) (timers d) (next_timer d).
Definition set_audioContext (v : option nat) (d : Doc) : Doc :=
  mkDoc (mediaRecorder d) (mediaStream d) v (recordingInterval d)
        (recorders d) (timers d) (next_timer d).
Definition set_recordingInterval (v : option positive) (d : Doc) : Doc :=
  mkDoc (mediaRecorder d) (mediaStream d) (audioContext d) v
        (recorders d) (timers d) (next_timer d).
Definition set_recorders (v : list Recorder) (d : Doc) : Doc :=
  mkDoc (mediaRecorder d) (mediaStream d) (audioContext d)
        (recordingInterval d) v (timers d) (next_timer d).
Definition set_timers (v : list (positive * nat)) (p : positive) (d : Doc) : Doc :=
  mkDoc (mediaRecorder d) (mediaStream d) (audioContext d)
        (recordingInterval d) (recorders d) v p.

(** The document as loaded: every handle is [null]. *)
Definition fresh : Doc := mkDoc None None None None [] [] 1%positive.

(** Platform calls made by the script, in program order. *)
Inductive Effect : Type :=
| ClearTimeout (t : positive)
| SetTimeout (t : positive) (ms : nat)
| SetInterval (ms : nat)
| RecorderNew (r : nat) (stream : nat)
| RecorderStart (r : nat)
| RecorderStop (r : nat)
| TrackStop (track : nat)
| ContextNew (ctx : nat)
| ContextClose (ctx : nat)
| SendMessage (m : Message).

Abbreviation Run := (Exec Doc Effect).

Definition is_active (r : Recorder) : bool :=
  bool_decide (rec_state r ≠ inactive).

(** [recorder.state] of the recorder with index [r]. *)
Definition recorder_state (d : Doc) (r : nat) : RecorderState :=
  match recorders d !! r with
  | Some rc => rec_state rc
  | None => inactive
  end.

(** [recorder.stop()]: an [InvalidStateError] on an inactive recorder;
    otherwise the recorder becomes inactive and its final
    [dataavailable] and [stop] events are queued. *)
Definition MediaRecorder_stop (r : nat) : Run unit :=
  d ← get;
  match recorders d !! r with
  | Some rc =>
      if is_active rc then
        modify (set_recorders
                  (<[r := mkRecorder (rec_stream rc) inactive (rec_chunks rc) true]>
                     (recorders d)));;
        emit (RecorderStop r)
      else throw "InvalidStateError"
  | None => throw "TypeError"
  end.

(** [startRecordingParams()]. *)
Definition startRecordingParams : Run unit :=
  d ← get;
  match mediaStream d with
  | None => mret tt
  | Some ms =>
      let r := length (recorders d) in
      (* const recorder = new MediaRecorder(mediaStream, options); let chunks = [] *)
      modify (set_recorders (recorders d ++ [mkRecorder (stream_id ms) inactive [] false]));;
      emit (RecorderNew r (stream_id ms));;
      (* recorder.start() *)
      modify (λ d, set_recorders
                     (<[r := mkRecorder (stream_id ms) recording [] false]> (recorders d)) d);;
      emit (RecorderStart r);;
      (* mediaRecorder = recorder *)
      modify (set_mediaRecorder (Some r));;
      (* recordingInterval = setTimeout(..., 3000) *)
      d ← get;
      let t := next_timer d in
      modify (set_timers (timers d ++ [(t, r)]) (Pos.succ t));;
      emit (SetTimeout t 3000);;
      modify (set_recordingInterval (Some t))
  end.

(** The body of the [setTimeout] callback whose closure captured
    recorder [r]. *)
Definition rotation_callback (r : nat) : Run unit :=
  d ← get;
  match mediaStream d with
  | Some _ => MediaRecorder_stop r;; startRecordingParams
  | None => mret tt
  end.

(** [recorder.ondataavailable] of recorder [r]. *)
Definition ondataavailable (r : nat) (data : Blob) : Run unit :=
  d ← get;
  match recorders d !! r with
  | Some rc =>
      when (bool_decide (0 < length data))
        (modify (set_recorders
                   (<[r := mkRecorder (rec_stream rc) (rec_state rc)
                                      (rec_chunks rc ++ [data]) (rec_flushing rc)]>
                      (recorders d))))
  | None => mret tt
  end.

(** [recorder.onstop] of recorder [r]: [new Blob(chunks)] is the
    concatenation of the chunks. *)
Definition onstop (r : nat) : Run unit :=
  d ← get;
  match recorders d !! r with
  | Some rc =>
      when (bool_decide (0 < length (rec_chunks rc)))
        (emit (SendMessage (mkMessage "AUDIO_DATA" (Some "background")
                                      (concat (rec_chunks rc)) (Some "webm"))))
  | None => mret tt
  end.

(** [track.stop()]. *)
Definition MediaStreamTrack_stop (tr : nat) : Run unit := emit (TrackStop tr).

(** [stopCapture()]. *)
Definition stopCapture : Run unit :=
  d ← get;
  match recordingInterval d with
  | Some t =>
      modify (λ d, set_timers (filter (λ c, c.1 ≠ t) (timers d)) (next_timer d) d);;
      emit (ClearTimeout t);;
      modify (set_recordingInterval None)
  | None => mret tt
  end;;
  d ← get;
  match mediaRecorder d with
  | Some r =>
      if bool_decide (recorder_state d r ≠ inactive)
      then MediaRecorder_stop r else mret tt
  | None => mret tt
  end;;
  d ← get;
  match mediaStream d with
  | Some ms =>
      forEach MediaStreamTrack_stop (stream_tracks ms);;
      modify (set_mediaStream None)
  | None => mret tt
  end;;
  d ← get;
  match audioContext d with
  | Some c =>
      emit (ContextClose c);;
      modify (set_audioContext None)
  | None => mret tt
  end;;
  modify (set_mediaRecorder None).

(** [startCapture(streamId)]; [stream] is what [getUserMedia] settles
    to and [ctx] names the [AudioContext] that is constructed. The
    [catch] of the source only logs and rethrows. *)
Definition startCapture (stream : Outcome MediaStream) (ctx : nat) : Run unit :=
  ms ← await stream;
  modify (set_mediaStream (Some ms));;
  emit (ContextNew ctx);;
  modify (set_audioContext (Some ctx));;
  emit (SetInterval 1000);;
  startRecordingParams.

(** What the message listener answers with [sendResponse]. *)
Record Reply : Type := mkReply {
  success : bool;
  error : option string;
}.

(** The listener's [START_CAPTURE] and [STOP_CAPTURE] cases. *)
Definition on_START_CAPTURE (stream : Outcome MediaStream) (ctx : nat) : Run Reply :=
  try_catch (startCapture stream ctx;; mret (mkReply true None))
            (λ e, mret (mkReply false (Some e))).

Definition on_STOP_CAPTURE : Run Reply :=
  stopCapture;; mret (mkReply true None).

(** What can happen to the document: one of the two requests arrives, a
    [setTimeout] timer comes due, or the platform delivers the final
    [dataavailable] (with the encoded data) and [stop] events of a
    recorder that was stopped. *)
Inductive Event : Type :=
| StartCaptureMsg (stream : Outcome MediaStream) (ctx : nat)
| StopCaptureMsg
| TimerFires (t : positive)
| Flushed (r : nat) (data : Blob).

Definition clear_flushing (r : nat) (d : Doc) : Doc :=
  match recorders d !! r with
  | Some rc =>
      set_recorders
        (<[r := mkRecorder (rec_stream rc) (rec_state rc) (rec_chunks rc) false]>
           (recorders d)) d
  | None => d
  end.

Definition deliver (ev : Event) : Run unit :=
  match ev with
  | StartCaptureMsg stream ctx => on_START_CAPTURE stream ctx;; mret tt
  | StopCaptureMsg => on_STOP_CAPTURE;; mret tt
  | TimerFires t =>
      d ← get;
      match list_find (λ c, c.1 = t) (timers d) with
      | Some (_, (_, r)) =>
          modify (λ d, set_timers (filter (λ c, c.1 ≠ t) (timers d)) (next_timer d) d);;
          rotation_callback r
      | None => mret tt
      end
  | Flushed r data =>
      d ← get;
      match recorders d !! r with
      | Some rc =>
          when (rec_flushing rc)
            (modify (clear_flushing r);; ondataavailable r data;; onstop r)
      | None => mret tt
      end
  end.

(** One turn of the document's event loop: an exception that escapes a
    callback ends that callback and nothing else. *)
Definition step (ev : Event) (d : Doc) : Doc := state_of (deliver ev d).
Definition output (ev : Event) (d : Doc) : list Effect := effects_of (deliver ev d).

Definition run (evs : list Event) (d : Doc) : Doc := foldl (flip step) d evs.

(** Number of recorders that are recording (or paused) right now. *)
Definition active_count (d : Doc) : nat :=
  length (filter (λ rc, is_active rc = true) (recorders d)).




(** The documents that the script can be brought into: the listener, the
    timers and the recorders' handlers run in any order, and the script
    checks nothing before it starts a capture. *)
Inductive reachable : Doc → Prop :=
| reach_fresh : reachable fresh
| reach_step d ev : reachable d → reachable (step ev d).

(** The documents reached when captures do not overlap: no
    [START_CAPTURE] arrives while a stream is bound. This is a condition
    on the sender of the messages; [startCapture] does not test it. *)
Inductive single_capture : Doc → Prop :=
| single_fresh : single_capture fresh
| single_start d stream ctx :
    single_capture d → mediaStream d = None →
    single_capture (step (StartCaptureMsg stream ctx) d)
| single_stop d : single_capture d → single_capture (step StopCaptureMsg d)
| single_timer d t : single_capture d → single_capture (step (TimerFires t) d)
| single_flushed d r data : single_capture d → single_capture (step (Flushed r data) d).

(** The teardown order that the specification gives for [stop()]: timer,
    then the encoder if one is active, then the tracks, then the playback
    routing. *)
Definition stop_effects (d : Doc) : list Effect :=
  match recordingInterval d with Some t => [ClearTimeout t] | None => [] end ++
  match mediaRecorder d with
  | Some r => if bool_decide (recorder_state d r ≠ inactive) then [RecorderStop r] else []
  | None => []
  end ++
  match mediaStream d with Some ms => TrackStop <$> stream_tracks ms | None => [] end ++
  match audioContext d with Some c => [ContextClose c] | None => [] end.

(** The recorder heap and the pending timers that [stopCapture] leaves. *)
Definition stopped (rc : Recorder) : Recorder :=
  mkRecorder (rec_stream rc) inactive (rec_chunks rc) true.

Definition stop_recorders (d : Doc) : list Recorder :=
  match mediaRecorder d with
  | Some r =>
      match recorders d !! r with
      | Some rc => if is_active rc then <[r := stopped rc]> (recorders d) else recorders d
      | None => recorders d
      end
  | None => recorders d
  end.

Definition stop_timers (d : Doc) : list (positive * nat) :=
  match recordingInterval d with
  | Some t => filter (λ c, c.1 ≠ t) (timers d)
  | None => timers d
  end.

(** *** The invariant of the rotation loop *)

(** Every active recorder is the one [mediaRecorder] points to and
    records the stream that [mediaStream] holds; and the only timer that can be pending is the one in
    [recordingInterval], whose closure holds that same active recorder. *)
Definition only_current_active (d : Doc) : Prop :=
  ∀ i rc, recorders d !! i = Some rc → is_active rc = true →
          mediaRecorder d = Some i ∧
          ∃ ms, mediaStream d = Some ms ∧ rec_stream rc = stream_id ms.

Definition timer_holds_current (d : Doc) : Prop :=
  match timers d with
  | [] => True
  | [(t, r)] =>
      recordingInterval d = Some t ∧ mediaRecorder d = Some r ∧
      is_Some (mediaStream d) ∧
      ∃ rc, recorders d !! r = Some rc ∧ is_active rc = true
  | _ => False
  end.

Definition Inv (d : Doc) : Prop := only_current_active d ∧ timer_holds_current d.

(** The encoded data that a flushed recorder ends up holding, and the
    message its [onstop] handler sends. *)
Definition flushed_chunks (rc : Recorder) (data : Blob) : list Blob :=
  if bool_decide (0 < length data) then rec_chunks rc ++ [data] else rec_chunks rc.

Definition flush_messages (chunks : list Blob) : list Effect :=
  if bool_decide (0 < length chunks)
  then [SendMessage (mkMessage "AUDIO_DATA" (Some "background") (concat chunks) (Some "webm"))]
  else [].




(** A capture that is started on a fresh document and rotated once. *)
Definition tab_stream : MediaStream := mkStream 7 [70; 71].

Definition rotated_once : Doc :=
  run [StartCaptureMsg (Fulfilled tab_stream) 5; TimerFires 1] fresh.

(** A capture that was started on a fresh document and has not rotated
    yet. *)
Definition capturing : Doc :=
  run [StartCaptureMsg (Fulfilled tab_stream) 5] fresh.


End Offscreen.

(** ** background.js: the session orchestrator *)

Module Background.

(** [WebSocket.readyState]. *)
Inductive ReadyState : Type := CONNECTING | OPEN | CLOSING | CLOSED.

#[global] Instance ReadyState_eq_dec : EqDecision ReadyState.
Proof. solve_decision. Defined.

(** A promise that is resolved at most once: a later [resolve] is
    ignored. *)
Inductive Promise (A : Type) : Type :=
| Pending
| Resolved (a : A).
Arguments Pending {A}.
Arguments Resolved {A} a.

Definition resolve {A} (a : A) (p : Promise A) : Promise A :=
  match p with
  | Pending => Resolved a
  | Resolved b => Resolved b
  end.

(** The five fields that the orchestrator copies out of a [notes] or
    [final_notes] frame; an absent property is [None]. *)
Record NotesDocument : Type := mkNotes {
  summary : option string;
  key_points : option (list string);
  action_items : option (list string);
  decisions : option (list string);
  questions : option (list string);
}.

#[global] Instance NotesDocument_eq_dec : EqDecision NotesDocument.
Proof. solve_decision. Defined.

(** A parsed frame from the service, by its [type]. [start] of a
    transcript frame is carried as its rendering [start.toFixed(1)]
    ([None] when the property is absent). *)
Inductive ServerMsg : Type :=
| auth_success
| error (message : string)
| transcript (start : option string) (text : string)
| notes (doc : NotesDocument)
| final_notes (doc : NotesDocument)
| pong
| other (type : string).

(** A frame that the orchestrator sends with [ws.send]. *)
Inductive Frame : Type :=
| auth (api_key : option string)
| stop
| ping
| audio (data : Blob) (format : string).

(** The object behind the global [ws], with the promise of the
    [connectWebSocket] call that constructed it (the [resolve] that its
    handlers and the connect timer close over). *)
Record WebSocket : Type := mkWebSocket {
  url : string;
  readyState : ReadyState;
  connect_promise : Promise bool;
}.

(** [chrome.storage.local], the per-session keys. *)
Record Storage : Type := mkStorage {
  st_transcript : list string;
  st_notes : option NotesDocument;
  st_isRecording : bool;
}.

(** The globals of the service worker (and the store it writes). *)
Record State : Type := mkState {
  isRecording : bool;
  ws : option WebSocket;
  apiKey : option string;
  apiUrl : string;
  transcriptLines : list string;
  currentNotes : option NotesDocument;
  wsAuthResolved : bool;
  storage : Storage;
}.

Definition set_isRecording (v : bool) (s : State) : State :=
  mkState v (ws s) (apiKey s) (apiUrl s) (transcriptLines s) (currentNotes s)
          (wsAuthResolved s) (storage s).
Definition set_ws (v : option WebSocket) (s : State) : State :=
  mkState (isRecording s) v (apiKey s) (apiUrl s) (transcriptLines s) (currentNotes s)
          (wsAuthResolved s) (storage s).
Definition set_transcriptLines (v : list string) (s : State) : State :=
  mkState (isRecording s) (ws s) (apiKey s) (apiUrl s) v (currentNotes s)
          (wsAuthResolved s) (storage s).
Definition set_currentNotes (v : option NotesDocument) (s : State) : State :=
  mkState (isRecording s) (ws s) (apiKey s) (apiUrl s) (transcriptLines s) v
          (wsAuthResolved s) (storage s).
Definition set_wsAuthResolved (v : bool) (s : State) : State :=
  mkState (isRecording s) (ws s) (apiKey s) (apiUrl s) (transcriptLines s)
          (currentNotes s) v (storage s).
Definition set_storage (v : Storage) (s : State) : State :=
  mkState (isRecording s) (ws s) (apiKey s) (apiUrl s) (transcriptLines s)
          (currentNotes s) (wsAuthResolved s) v.

(** The worker as it starts up, settings loaded with their defaults. *)
Definition initial : State :=
  mkState false None (Some "ai-noter-demo-key-2024") "http://localhost:8001" [] None false
          (mkStorage [] None false).

(** Messages to the popup ([broadcastToPopup]). *)
Inductive Broadcast : Type :=
| STATUS (text : string)
| CONNECTION_STATUS (connected : bool)
| ERROR (err : string)
| TRANSCRIPT (text : string) (timestamp : option string)
| NOTES_UPDATE (doc : NotesDocument).

Inductive OffscreenRequest : Type :=
| START_CAPTURE (streamId : string)
| STOP_CAPTURE.

(** Platform calls made by the worker, in program order. *)
Inductive Effect : Type :=
| WsNew (u : string)
| WsSend (f : Frame)
| WsClose
| ToPopup (b : Broadcast)
| ToOffscreen (r : OffscreenRequest)
| CreateDocument
| CloseDocument
| Respond (received : bool).

Abbreviation Run := (Exec State Effect).

(** What a command answers to its caller. *)
Inductive Response : Type :=
| success_true
| success_notes (doc : option NotesDocument)
| success_false (err : string).

(** [s.includes(pat)]. *)
Fixpoint includes (pat s : string) : bool :=
  String.prefix pat s ||
  match s with
  | EmptyString => false
  | String _ s' => includes pat s'
  end.

(** [s.replace(pat, by)] with a string pattern: the first occurrence. *)
Fixpoint replace (pat by_ s : string) : string :=
  if String.prefix pat s
  then by_ +:+ String.substring (String.length pat) (String.length s - String.length pat) s
  else match s with
       | EmptyString => EmptyString
       | String c s' => String c (replace pat by_ s')
       end.

(** [ws && ws.readyState === WebSocket.OPEN]. *)
Definition socket_open (s : State) : bool :=
  match ws s with
  | Some w => bool_decide (readyState w = OPEN)
  | None => false
  end.

Definition broadcastToPopup (b : Broadcast) : Run unit := emit (ToPopup b).

(** [chrome.storage.local.set] of one key. *)
Definition store_transcript (v : list string) : Run unit :=
  modify (λ s, set_storage (mkStorage v (st_notes (storage s)) (st_isRecording (storage s))) s).
Definition store_notes (v : option NotesDocument) : Run unit :=
  modify (λ s, set_storage (mkStorage (st_transcript (storage s)) v (st_isRecording (storage s))) s).

(** The [resolve] of the connect attempt of the current socket. *)
Definition authResolver (b : bool) : Run unit :=
  modify (λ s, match ws s with
               | Some w => set_ws (Some (mkWebSocket (url w) (readyState w)
                                                     (resolve b (connect_promise w)))) s
               | None => s
               end).

Definition set_readyState (r : ReadyState) : Run unit :=
  modify (λ s, match ws s with
               | Some w => set_ws (Some (mkWebSocket (url w) r (connect_promise w))) s
               | None => s
               end).

(** [handleWebSocketMessage(data, authResolver)]. *)
Definition handleWebSocketMessage (data : ServerMsg) : Run unit :=
  match data with
  | auth_success =>
      broadcastToPopup (CONNECTION_STATUS true);;
      s ← get;
      when (negb (wsAuthResolved s))
        (modify (set_wsAuthResolved true);; authResolver true)
  | error message =>
      broadcastToPopup (ERROR message);;
      s ← get;
      when (negb (wsAuthResolved s) && includes "API key" message)
        (modify (set_wsAuthResolved true);; authResolver false)
  | transcript start text =>
      let line := "[" +:+ default "0.0" start +:+ "s] " +:+ text in
      modify (λ s, set_transcriptLines (transcriptLines s ++ [line]) s);;
      s ← get;
      store_transcript (transcriptLines s);;
      broadcastToPopup (TRANSCRIPT text start)
  | notes doc =>
      modify (set_currentNotes (Some doc));;
      store_notes (Some doc);;
      broadcastToPopup (NOTES_UPDATE doc)
  | final_notes _ => mret tt
  | pong => mret tt
  | other _ => mret tt
  end.

(** What happens on the current socket, or to the timer of its connect
    attempt. *)
Inductive SocketEvent : Type :=
| Open
| MessageEv (data : ServerMsg)
| ErrorEv
| CloseEv
| ConnectTimeout.

(** The handlers that [connectWebSocket] installs ([onopen],
    [onmessage], [onerror], [onclose]) and its [setTimeout] callback. The
    platform has moved [readyState] before [onopen] and [onclose] run. *)
Definition socket_event (ev : SocketEvent) : Run unit :=
  match ev with
  | Open =>
      set_readyState OPEN;;
      s ← get;
      match ws s with
      | Some _ => emit (WsSend (auth (apiKey s)))
      | None => throw "TypeError"
      end
  | MessageEv data => handleWebSocketMessage data
  | ErrorEv =>
      broadcastToPopup (ERROR "WebSocket connection failed");;
      authResolver false
  | CloseEv =>
      set_readyState CLOSED;;
      broadcastToPopup (CONNECTION_STATUS false)
  | ConnectTimeout =>
      s ← get;
      match ws s with
      | Some w => when (bool_decide (readyState w ≠ OPEN)) (authResolver false)
      | None => throw "TypeError"
      end
  end.

(** An event handler that runs to its end or dies of an exception: the
    event loop goes on either way. *)
Definition handle (ev : SocketEvent) : Run unit :=
  try_catch (socket_event ev) (λ _, mret tt).

(** [await] of the promise of the connect attempt while [events] happen
    one after the other: the call resumes as soon as the promise is
    resolved, and never if it is not. *)
Fixpoint await_connect (events : list SocketEvent) : Run bool :=
  s ← get;
  match connect_promise <$> ws s with
  | Some (Resolved b) => mret b
  | _ =>
      match events with
      | [] => hang
      | ev :: events =>
          handle ev;;
          await_connect events
      end
  end.

(** [connectWebSocket()]; [constructed] tells whether [new WebSocket]
    accepts the address. *)
Definition connectWebSocket (constructed : Outcome unit) (events : list SocketEvent)
  : Run bool :=
  s ← get;
  let wsUrl := replace "https://" "wss://" (replace "http://" "ws://" (apiUrl s)) in
  match constructed with
  | Fulfilled _ =>
      modify (set_ws (Some (mkWebSocket (wsUrl +:+ "/api/v1/stream") CONNECTING Pending)));;
      emit (WsNew (wsUrl +:+ "/api/v1/stream"));;
      await_connect events
  | Rejected _ => mret false
  end.

(** What the platform answers during one [startRecording()]: the active
    tab of the current window (if any), whether the socket can be
    constructed, what then happens on it, how many offscreen documents
    [getContexts] reports, and the outcomes of [createDocument],
    [getMediaStreamId] and of the [START_CAPTURE] request. *)
Record StartEnv : Type := mkStartEnv {
  tabs_query : Outcome (option nat);
  new_WebSocket : Outcome unit;
  socket_events : list SocketEvent;
  start_getContexts : Outcome nat;
  createDocument : Outcome unit;
  getMediaStreamId : Outcome string;
  START_CAPTURE_reply : Outcome Offscreen.Reply;
}.

(** What the platform answers during one [stopRecording()]: the outcome
    of the [STOP_CAPTURE] request, what happens on the socket before the
    10 s timer of the final-notes wait fires, and the outcomes of
    [getContexts] and [closeDocument]. *)
Record StopEnv : Type := mkStopEnv {
  STOP_CAPTURE_reply : Outcome Offscreen.Reply;
  final_wait : list SocketEvent;
  stop_getContexts : Outcome nat;
  closeDocument : Outcome unit;
}.

(** [setupOffscreenDocument()]. *)
Definition setupOffscreenDocument (env : StartEnv) : Run unit :=
  existingContexts ← await (start_getContexts env);
  if bool_decide (0 < existingContexts) then mret tt
  else emit CreateDocument;; await (createDocument env).

(** [closeOffscreenDocument()]. *)
Definition closeOffscreenDocument (env : StopEnv) : Run unit :=
  existingContexts ← await (stop_getContexts env);
  when (bool_decide (0 < existingContexts))
    (emit CloseDocument;; await (closeDocument env)).

(** [startRecording()]. *)
Definition startRecording (env : StartEnv) : Run Response :=
  s ← get;
  if isRecording s then mret (success_false "Already recording")
  else
    try_catch
      (tab ← await (tabs_query env);
       match tab with
       | None => mret (success_false "No active tab")
       | Some _ =>
           connected ← connectWebSocket (new_WebSocket env) (socket_events env);
           if negb connected
           then mret (success_false "Failed to connect to API server")
           else
             setupOffscreenDocument env;;
             streamId ← await (getMediaStreamId env);
             emit (ToOffscreen (START_CAPTURE streamId));;
             _ ← await (START_CAPTURE_reply env);
             modify (set_isRecording true);;
             modify (set_transcriptLines []);;
             modify (set_currentNotes None);;
             modify (set_storage (mkStorage [] None true));;
             broadcastToPopup (STATUS "Recording...");;
             mret success_true
       end)
      (λ e, mret (success_false e)).

(** The promise that [stopRecording] awaits: every frame that arrives
    goes through [ws.onmessage] and then through the added listener,
    which resolves with the first [final_notes]; when the events of the
    10 s window are used up the timer resolves with [null]. *)
Fixpoint wait_final_notes (events : list SocketEvent) : Run (option NotesDocument) :=
  match events with
  | [] => mret None
  | ev :: events =>
      handle ev;;
      match ev with
      | MessageEv (final_notes doc) => mret (Some doc)
      | _ => wait_final_notes events
      end
  end.

(** [stopRecording()]. *)
Definition stopRecording (env : StopEnv) : Run Response :=
  s ← get;
  if negb (isRecording s) then mret (success_false "Not recording")
  else
    try_catch
      (emit (ToOffscreen STOP_CAPTURE);;
       _ ← await (STOP_CAPTURE_reply env);
       s ← get;
       finalNotes ←
         (if socket_open s
          then emit (WsSend stop);; wait_final_notes (final_wait env)
          else mret None);
       s ← get;
       when (bool_decide (is_Some (ws s)))
         (emit WsClose;; modify (set_ws None));;
       closeOffscreenDocument env;;
       modify (set_isRecording false);;
       broadcastToPopup (STATUS "Recording stopped");;
       broadcastToPopup (CONNECTION_STATUS false);;
       mret (success_notes finalNotes))
      (λ e, modify (set_isRecording false);; mret (success_false e)).

(** [message.format || 'webm']. *)
Definition format_or_webm (format : option string) : string :=
  match format with
  | Some f => if bool_decide (f = "") then "webm" else f
  | None => "webm"
  end.

(** The second [onMessage] listener: audio from the offscreen document. *)
Definition onAudioData (message : Message) : Run unit :=
  when (bool_decide (msg_type message = "AUDIO_DATA")
        && bool_decide (msg_target message = Some "background"))
    (s ← get;
     when (socket_open s)
       (emit (WsSend (audio (msg_data message) (format_or_webm (msg_format message)))));;
     emit (Respond true)).

(** The body of the 30 s heartbeat. *)
Definition heartbeat : Run unit :=
  s ← get;
  when (socket_open s) (emit (WsSend ping)).

(** One turn of the worker's event loop. *)
Inductive Event : Type :=
| StartCommand (env : StartEnv)
| StopCommand (env : StopEnv)
| Socket (ev : SocketEvent)
| AudioData (m : Message)
| Heartbeat.

Definition deliver (ev : Event) : Run unit :=
  match ev with
  | StartCommand env => startRecording env;; mret tt
  | StopCommand env => stopRecording env;; mret tt
  | Socket ev => handle ev
  | AudioData m => onAudioData m
  | Heartbeat => heartbeat
  end.

Definition step (ev : Event) (s : State) : State := state_of (deliver ev s).
Definition run (evs : list Event) (s : State) : State := foldl (flip step) s evs.

(** The persisted notes after an event on the socket: only a provisional
    [notes] frame writes them. *)
Definition provisional (ev : SocketEvent) (old : option NotesDocument)
  : option NotesDocument :=
  match ev with
  | MessageEv (notes doc) => Some doc
  | _ => old
  end.

(** The first [final_notes] document among the events that precede the
    timeout of the wait, if there is one. *)
Fixpoint first_final_notes (events : list SocketEvent) : option NotesDocument :=
  match events with
  | [] => None
  | MessageEv (final_notes doc) :: _ => Some doc
  | _ :: events => first_final_notes events
  end.

(** The events that the wait lets through: up to the first [final_notes]. *)
Fixpoint until_final_notes (events : list SocketEvent) : list SocketEvent :=
  match events with
  | [] => []
  | MessageEv (final_notes doc) :: _ => [MessageEv (final_notes doc)]
  | ev :: events => ev :: until_final_notes events
  end.

(** The last provisional notes document among [events], or [old]. *)
Definition last_provisional (events : list SocketEvent) (old : option NotesDocument)
  : option NotesDocument :=
  foldl (λ acc ev, provisional ev acc) old events.

(** The error, if any, that [closeOffscreenDocument] raises. *)
Definition close_error (env : StopEnv) : option string :=
  match stop_getContexts env with
  | Rejected e => Some e
  | Fulfilled n =>
      if bool_decide (0 < n)
      then match closeDocument env with Rejected e => Some e | Fulfilled _ => None end
      else None
  end.

(** The answer of a stop command issued while recording. *)
Definition stop_response (env : StopEnv) (s : State) : Response :=
  match STOP_CAPTURE_reply env with
  | Rejected e => success_false e
  | Fulfilled _ =>
      match close_error env with
      | Some e => success_false e
      | None =>
          success_notes (if socket_open s then first_final_notes (final_wait env) else None)
      end
  end.

(** The socket events that a stop command lets the handlers see. *)
Definition waited (env : StopEnv) (s : State) : list SocketEvent :=
  match STOP_CAPTURE_reply env with
  | Rejected _ => []
  | Fulfilled _ => if socket_open s then until_final_notes (final_wait env) else []
  end.

(** The socket events of a final-notes wait that runs until its timer:
    all of [final_wait], when the wait takes place at all. *)
Definition whole_wait (env : StopEnv) (s : State) : list SocketEvent :=
  match STOP_CAPTURE_reply env with
  | Rejected _ => []
  | Fulfilled _ => if socket_open s then final_wait env else []
  end.

(** The frames sent on the socket among the platform calls. *)
Definition frames (acts : list Effect) : list Frame :=
  omap (λ a, match a with WsSend f => Some f | _ => None end) acts.

(** Stop commands. *)
Definition is_stop (ev : Event) : bool :=
  match ev with
  | StopCommand _ => true
  | _ => false
  end.

Definition with_START_CAPTURE_reply (r : Outcome Offscreen.Reply) (env : StartEnv)
  : StartEnv :=
  mkStartEnv (tabs_query env) (new_WebSocket env) (socket_events env)
             (start_getContexts env) (createDocument env) (getMediaStreamId env) r.

(** Once [wsAuthResolved] is set and the promise of the current connect
    attempt has not been resolved with [true], it never will be. *)
Definition never_true (s : State) : Prop :=
  wsAuthResolved s = true ∧ ∀ w, ws s = Some w → connect_promise w ≠ Resolved true.

(** Socket events other than an error and a close. *)
Definition quiet (ev : SocketEvent) : bool :=
  match ev with
  | ErrorEv | CloseEv => false
  | _ => true
  end.

(** The socket is open, its connect attempt is unresolved and
    [wsAuthResolved] is already set. *)
Definition stuck (s : State) : Prop :=
  wsAuthResolved s = true ∧
  ∃ w, ws s = Some w ∧ readyState w = OPEN ∧ connect_promise w = Pending.

(** *** The specification's sentences that the code does not meet, as
    they are written *)


(** A stop issued while not recording fails with "Not recording" and
    still asks the capture document to stop or closes it. *)
Definition stop_resets_when_idle : Prop :=
  ∀ env s,
    isRecording s = false →
    completion_of (stopRecording env s) = Return (success_false "Not recording") ∧
    (ToOffscreen STOP_CAPTURE ∈ effects_of (stopRecording env s) ∨
     CloseDocument ∈ effects_of (stopRecording env s)).

(** *** A session used in the examples *)

Definition good_start : StartEnv :=
  mkStartEnv (Fulfilled (Some 42)) (Fulfilled tt)
             [Open; MessageEv auth_success; ConnectTimeout]
             (Fulfilled 0) (Fulfilled tt) (Fulfilled "stream-1")
             (Fulfilled (Offscreen.mkReply true None)).

Definition live_notes : NotesDocument :=
  mkNotes (Some "draft") (Some ["point"]) (Some []) (Some []) (Some []).

Definition closing_notes : NotesDocument :=
  mkNotes (Some "final") (Some ["point"; "more"]) (Some ["act"]) (Some []) (Some []).

(** A stop during which the final notes arrive. *)
Definition good_stop : StopEnv :=
  mkStopEnv (Fulfilled (Offscreen.mkReply true None))
            [MessageEv (final_notes closing_notes)] (Fulfilled 1) (Fulfilled tt).

(** A stop whose wait times out. *)
Definition silent_stop : StopEnv :=
  mkStopEnv (Fulfilled (Offscreen.mkReply true None)) [] (Fulfilled 1) (Fulfilled tt).

(** The worker while it records, before and after a provisional notes
    frame, and after a first session has been stopped. *)
Definition recording_state : State := run [StartCommand good_start] initial.

Definition noted_state : State :=
  run [StartCommand good_start; Socket (MessageEv (notes live_notes))] initial.

Definition second_session_state : State :=
  run [StartCommand good_start; StopCommand good_stop] initial.

(** A stop during which the final notes arrive and the closing of the
    offscreen document is refused. *)
Definition failed_close_stop : StopEnv :=
  mkStopEnv (Fulfilled (Offscreen.mkReply true None))
            [MessageEv (final_notes closing_notes)] (Fulfilled 1)
            (Rejected "No current offscreen document").

(** A start whose capture handle is refused, and the worker after it: not
    recording, with the socket open and the offscreen document created. *)
Definition capture_denied_start : StartEnv :=
  mkStartEnv (Fulfilled (Some 42)) (Fulfilled tt)
             [Open; MessageEv auth_success; ConnectTimeout]
             (Fulfilled 0) (Fulfilled tt) (Rejected "Error starting tab capture")
             (Fulfilled (Offscreen.mkReply true None)).

Definition stray_state : State := run [StartCommand capture_denied_start] initial.

(** A start during which the capture document reports that it could not
    start the capture. *)
Definition capture_failed_start : StartEnv :=
  with_START_CAPTURE_reply
    (Fulfilled (Offscreen.mkReply false (Some "NotAllowedError"))) good_start.

(** *** Definitions for the further properties *)

(** The line that a [transcript] frame appends to the transcript. *)
Definition transcript_line (ev : SocketEvent) : list string :=
  match ev with
  | MessageEv (transcript start text) => ["[" +:+ default "0.0" start +:+ "s] " +:+ text]
  | _ => []
  end.

(** The store holds what the worker has in memory. *)
Definition synced (s : State) : Prop :=
  st_transcript (storage s) = transcriptLines s ∧ st_notes (storage s) = currentNotes s.

(** Platform calls that release a resource of the session. *)
Definition releases (a : Effect) : bool :=
  match a with
  | WsClose | CloseDocument | ToOffscreen STOP_CAPTURE => true
  | _ => false
  end.

(** Neither a release nor the [stop] frame. *)
Definition no_release (a : Effect) : Prop := releases a = false ∧ a ≠ WsSend stop.

(** What resolves a connect attempt that no frame has resolved before,
    read off the handlers: [readyState] is [rs] when [events] begin. *)
Fixpoint first_outcome (rs : ReadyState) (events : list SocketEvent) : option bool :=
  match events with
  | [] => None
  | Open :: events => first_outcome OPEN events
  | MessageEv auth_success :: _ => Some true
  | MessageEv (error message) :: events =>
      if includes "API key" message then Some false else first_outcome rs events
  | MessageEv _ :: events => first_outcome rs events
  | ErrorEv :: _ => Some false
  | CloseEv :: events => first_outcome CLOSED events
  | ConnectTimeout :: events =>
      if bool_decide (rs ≠ OPEN) then Some false else first_outcome rs events
  end.

(** The platform calls of a sequence of turns of the event loop. *)
Fixpoint outputs (evs : list Event) (s : State) : list Effect :=
  match evs with
  | [] => []
  | ev :: evs => effects_of (deliver ev s) ++ outputs evs (step ev s)
  end.

(** Audio messages and heartbeats, and the frame that each one stands
    for. *)
Definition relay_only (ev : Event) : bool :=
  match ev with
  | AudioData _ | Heartbeat => true
  | _ => false
  end.

Definition frame_of (ev : Event) : option Frame :=
  match ev with
  | AudioData m =>
      if bool_decide (msg_type m = "AUDIO_DATA")
         && bool_decide (msg_target m = Some "background")
      then Some (audio (msg_data m) (format_or_webm (msg_format m)))
      else None
  | Heartbeat => Some ping
  | _ => None
  end.

(** The messages that the first [onMessage] listener dispatches on, by
    their [type], and what it passes to [sendResponse]. [connected] is the
    value of [ws && ws.readyState === WebSocket.OPEN]: [null] without a
    socket. *)
Inductive Request : Type :=
| START_RECORDING (env : StartEnv)
| STOP_RECORDING (env : StopEnv)
| CHECK_CONNECTION
| GET_STATUS
| other_request (type : string).

Inductive Answer : Type :=
| command_result (r : Response)
| connection (connected : option bool)
| status (recording : bool) (connected : option bool)
         (lines : list string) (doc : option NotesDocument)
| unknown_message_type
| handler_error (err : string).

Definition connected (s : State) : option bool :=
  (λ w, bool_decide (readyState w = OPEN)) <$> ws s.

(** [handleMessage(message, sender, sendResponse)]; every branch ends in
    one call of [sendResponse], whose argument is the value returned. *)
Definition handleMessage (message : Request) : Run Answer :=
  try_catch
    (match message with
     | START_RECORDING env =>
         startResult ← startRecording env; mret (command_result startResult)
     | STOP_RECORDING env =>
         stopResult ← stopRecording env; mret (command_result stopResult)
     | CHECK_CONNECTION =>
         s ← get; mret (connection (connected s))
     | GET_STATUS =>
         s ← get;
         mret (status (isRecording s) (connected s) (transcriptLines s) (currentNotes s))
     | other_request _ => mret unknown_message_type
     end)
    (λ e, mret (handler_error e)).

(** A worker that holds session data and is not recording. *)
Definition used_state : State :=
  run [StartCommand good_start; Socket (MessageEv (transcript (Some "1.5") "hello"));
       Socket (MessageEv (notes live_notes)); StopCommand silent_stop] initial.

End Background.

(** ** The popup ([popup.js]): its stop button and its notes panel *)

Module Popup.

(** The globals of the popup script that the stop button touches,
    together with the service worker that answers its messages; the local
    store, which both contexts write, is the worker's [storage] field. *)
Record World : Type := mkWorld {
  isRecording : bool;
  isConnected : bool;
  transcriptLines : list string;
  currentNotes : option Background.NotesDocument;
  worker : Background.State;
}.

Definition set_isRecording (v : bool) (w : World) : World :=
  mkWorld v (isConnected w) (transcriptLines w) (currentNotes w) (worker w).
Definition set_currentNotes (v : option Background.NotesDocument) (w : World) : World :=
  mkWorld (isRecording w) (isConnected w) (transcriptLines w) v (worker w).
Definition set_worker (v : Background.State) (w : World) : World :=
  mkWorld (isRecording w) (isConnected w) (transcriptLines w) (currentNotes w) v.

(** What the script does to the page, and what the worker does while it
    answers. [NotesPanel_notes doc isLive] is the assignment of the
    rendered sections of [doc], under the live badge when [isLive], to the
    panel's [innerHTML]. *)
Inductive Effect : Type :=
| StartBtn_disabled (v : bool)
| StopBtn_disabled (v : bool)
| StatusText (text : string)
| StatusBar_hidden (v : bool)
| DownloadSection_hidden (v : bool)
| NotesPanel_empty
| NotesPanel_notes (doc : Background.NotesDocument) (isLive : bool)
| Worker (a : Background.Effect).

Abbreviation Run := (Exec World Effect).

(** [chrome.storage.local.set({...})] from the popup. *)
Definition storage_set (f : Background.Storage → Background.Storage) : Run unit :=
  modify (λ w, set_worker
                 (Background.set_storage (f (Background.storage (worker w))) (worker w)) w).

(** [!notes.summary]: the property is absent or the empty string. *)
Definition no_summary (doc : Background.NotesDocument) : bool :=
  match Background.summary doc with
  | Some text => bool_decide (text = "")
  | None => true
  end.

(** [renderNotes(notes, isLive)]: a document with a summary is shown and
    then saved to the store; anything else empties the panel and saves
    nothing. *)
Definition renderNotes (notes : option Background.NotesDocument) (isLive : bool)
  : Run unit :=
  match notes with
  | Some doc =>
      if no_summary doc then emit NotesPanel_empty
      else
        emit (NotesPanel_notes doc isLive);;
        storage_set (λ st, Background.mkStorage (Background.st_transcript st) (Some doc)
                                                (Background.st_isRecording st))
  | None => emit NotesPanel_empty
  end.

(** [updateUI()]. *)
Definition updateUI : Run unit :=
  w ← get;
  emit (StartBtn_disabled (isRecording w));;
  emit (StopBtn_disabled (negb (isRecording w)));;
  (if isRecording w
   then emit (StatusBar_hidden false);; emit (StatusText "Recording...")
   else emit (StatusBar_hidden true));;
  storage_set (λ st, Background.mkStorage (Background.st_transcript st)
                                          (Background.st_notes st) (isRecording w)).

(** [await chrome.runtime.sendMessage(message)]: the worker's
    [handleMessage] runs and what it passes to [sendResponse] is the
    value of the promise. What the worker broadcasts meanwhile stays a
    call of the worker ([Worker (ToPopup _)]): the popup's listeners for
    broadcasts and for changes of the store are other handlers than the
    one modelled here. *)
Definition sendMessage (message : Background.Request) : Run Background.Answer :=
  λ w,
    match Background.handleMessage message (worker w) with
    | (b, eff, c) => (set_worker b w, Worker <$> eff, c)
    end.

(** [response.success] and [response.notes] of an answer. *)
Definition response_success (response : Background.Answer) : bool :=
  match response with
  | Background.command_result Background.success_true
  | Background.command_result (Background.success_notes _) => true
  | _ => false
  end.

Definition response_notes (response : Background.Answer)
  : option Background.NotesDocument :=
  match response with
  | Background.command_result (Background.success_notes doc) => doc
  | _ => None
  end.

(** The click handler of the stop button; [env] is what the platform
    does while the worker carries out the stop. *)
Definition on_stop_click (env : Background.StopEnv) : Run unit :=
  try_catch
    (emit (StopBtn_disabled true);;
     emit (StatusText "Stopping...");;
     response ← sendMessage (Background.STOP_RECORDING env);
     if response_success response
     then
       modify (set_isRecording false);;
       updateUI;;
       when (bool_decide (is_Some (response_notes response)))
         (modify (set_currentNotes (response_notes response));;
          w ← get;
          renderNotes (currentNotes w) false;;
          emit (DownloadSection_hidden false))
     else
       modify (set_isRecording false);;
       updateUI)
    (λ _, modify (set_isRecording false);; updateUI).

(** *** Spec-side definitions *)

(** The persisted notes once a stop issued from the popup has run its
    course: the worker's [stopRecording] and then the rest of the click
    handler. *)
Definition persisted_after_stop (env : Background.StopEnv) (w : World)
  : option Background.NotesDocument :=
  Background.st_notes (Background.storage (worker (state_of (on_stop_click env w)))).

(** The specification's two sentences on the persisted notes, as they
    are written: after a stop whose wait timed out they are [null]; after
    a stop that received the final notes they are those notes. *)
Definition timeout_resets_notes : Prop :=
  ∀ env w,
    Background.isRecording (worker w) = true →
    Background.socket_open (worker w) = true →
    (∃ r, Background.STOP_CAPTURE_reply env = Fulfilled r) →
    Background.first_final_notes (Background.final_wait env) = None →
    persisted_after_stop env w = None.

Definition final_notes_persisted : Prop :=
  ∀ env w doc,
    Background.isRecording (worker w) = true →
    Background.socket_open (worker w) = true →
    (∃ r, Background.STOP_CAPTURE_reply env = Fulfilled r) →
    Background.first_final_notes (Background.final_wait env) = Some doc →
    persisted_after_stop env w = Some doc.

(** A popup whose globals agree with the worker [s]. *)
Definition opened (s : Background.State) : World :=
  mkWorld (Background.isRecording s) (Background.socket_open s)
          (Background.transcriptLines s) (Background.currentNotes s) s.

(** Final notes that carry an empty summary, and a stop during which they
    arrive. *)
Definition blank_notes : Background.NotesDocument :=
  Background.mkNotes (Some "") (Some ["point"]) (Some []) (Some []) (Some []).

Definition blank_stop : Background.StopEnv :=
  Background.mkStopEnv (Fulfilled (Offscreen.mkReply true None))
                       [Background.MessageEv (Background.final_notes blank_notes)]
                       (Fulfilled 1) (Fulfilled tt).

End Popup.

(** ** Facts about the capture pipeline *)

Module OffscreenFacts.
Import Offscreen.

Ltac exec :=
  repeat (cbn [mbind mret Exec_bind Exec_ret get modify emit throw await when
               try_catch state_of effects_of completion_of fst snd
               mediaRecorder mediaStream audioContext recordingInterval
               recorders timers next_timer
               set_mediaRecorder set_mediaStream set_audioContext
               set_recordingInterval set_recorders set_timers app];
          unfold mbind, mret, Exec_bind, Exec_ret, get, modify, emit, throw, when).

Lemma track_stops (l : list nat) (d : Doc) :
  forEach MediaStreamTrack_stop l d = (d, TrackStop <$> l, Return tt).
Proof.
  induction l as [|tr l IH]; [reflexivity|].
  cbn [forEach]. exec. unfold MediaStreamTrack_stop at 1. exec.
  by rewrite IH.
Qed.

Lemma stopCapture_run (d : Doc) :
  stopCapture d
  = (mkDoc None None None None (stop_recorders d) (stop_timers d) (next_timer d),
     stop_effects d, Return tt).
Proof.
  destruct d as [mr ms ac ri rs ts nt].
  unfold stopCapture, stop_effects, stop_recorders, stop_timers, stopped,
    MediaRecorder_stop, recorder_state, is_active.
  destruct ri as [t|], mr as [r|], ms as [[sid trs]|], ac as [c|]; exec;
    try (destruct (rs !! r) as [[rst [] ch fl]|] eqn:E; simpl; rewrite ?E; simpl);
    rewrite ?track_stops; simpl; rewrite ?app_nil_r; eauto.
Qed.

Lemma startRecordingParams_run (d : Doc) (ms : MediaStream) :
  mediaStream d = Some ms →
  startRecordingParams d
  = (mkDoc (Some (length (recorders d))) (Some ms) (audioContext d)
           (Some (next_timer d))
           (recorders d ++ [mkRecorder (stream_id ms) recording [] false])
           (timers d ++ [(next_timer d, length (recorders d))])
           (Pos.succ (next_timer d)),
     [RecorderNew (length (recorders d)) (stream_id ms);
      RecorderStart (length (recorders d));
      SetTimeout (next_timer d) 3000],
     Return tt).
Proof.
  destruct d as [mr ms' ac ri rs ts nt]. simpl. intros ->.
  unfold startRecordingParams. exec.
  rewrite insert_app_r_alt by lia. by rewrite Nat.sub_diag.
Qed.

Lemma MediaRecorder_stop_active (d : Doc) (r : nat) (rc : Recorder) :
  recorders d !! r = Some rc → is_active rc = true →
  MediaRecorder_stop r d
  = (set_recorders (<[r := stopped rc]> (recorders d)) d, [RecorderStop r], Return tt).
Proof.
  intros E A. unfold MediaRecorder_stop. exec. rewrite E, A. by exec.
Qed.

Lemma Inv_fresh : Inv fresh.
Proof. split; [intros i rc E; simpl in E; by rewrite lookup_nil in E | exact I]. Qed.

Lemma Inv_stop (d : Doc) : Inv d → Inv (step StopCaptureMsg d).
Proof.
  intros [Ha Hb]. unfold step, deliver, on_STOP_CAPTURE. exec.
  rewrite stopCapture_run. exec. split.
  - intros i rc. simpl. unfold stop_recorders.
    destruct (mediaRecorder d) as [r|] eqn:Em.
    + destruct (recorders d !! r) as [rc'|] eqn:Er.
      * destruct (is_active rc') eqn:Ea.
        -- intros E A. destruct (decide (i = r)) as [->|Hne].
           ++ rewrite list_lookup_insert_eq in E by (by eapply lookup_lt_Some).
              by simplify_eq.
           ++ rewrite list_lookup_insert_ne in E by done.
              destruct (Ha i rc E A) as [? _]. congruence.
        -- intros E A. destruct (Ha i rc E A) as [? _]. congruence.
      * intros E A. destruct (Ha i rc E A) as [? _]. congruence.
    + intros E A. destruct (Ha i rc E A) as [? _]. congruence.
  - unfold timer_holds_current in *. simpl. unfold stop_timers.
    destruct (timers d) as [|[t r] [|? ?]]; try done.
    + by destruct (recordingInterval d).
    + destruct Hb as (-> & _). rewrite filter_cons. simpl.
      by rewrite decide_False by (by intros ?).
Qed.

Lemma Inv_recorder_update (d : Doc) (r : nat) (rc rc' : Recorder) :
  Inv d → recorders d !! r = Some rc →
  rec_state rc' = rec_state rc → rec_stream rc' = rec_stream rc →
  Inv (set_recorders (<[r := rc']> (recorders d)) d).
Proof.
  intros [Ha Hb] E S T. split.
  - intros i x. simpl. destruct (decide (i = r)) as [->|Hne].
    + rewrite list_lookup_insert_eq by (by eapply lookup_lt_Some).
      intros [= <-] A. rewrite T. apply (Ha r rc E). unfold is_active in *. by rewrite <- S.
    + rewrite list_lookup_insert_ne by done. apply Ha.
  - unfold timer_holds_current in *. simpl.
    destruct (timers d) as [|[t r0] [|? ?]]; try done.
    destruct Hb as (? & ? & ? & x & Ex & Ax). repeat split; try done.
    destruct (decide (r0 = r)) as [->|Hne].
    + exists rc'. rewrite list_lookup_insert_eq by (by eapply lookup_lt_Some).
      split; [done|]. simplify_eq. unfold is_active in *. by rewrite S.
    + exists x. by rewrite list_lookup_insert_ne.
Qed.

Lemma Flushed_run (d : Doc) (r : nat) (rc : Recorder) (data : Blob) :
  recorders d !! r = Some rc → rec_flushing rc = true →
  deliver (Flushed r data) d
  = (set_recorders
       (<[r := mkRecorder (rec_stream rc) (rec_state rc) (flushed_chunks rc data) false]>
          (recorders d)) d,
     flush_messages (flushed_chunks rc data), Return tt).
Proof.
  intros E F. pose proof (lookup_lt_Some _ _ _ E) as Hlt.
  unfold deliver, ondataavailable, onstop, clear_flushing, flushed_chunks, flush_messages.
  exec. rewrite E, F. exec. rewrite E. exec.
  rewrite list_lookup_insert_eq by done. simpl.
  destruct (bool_decide (0 < length data)); exec.
  - rewrite list_lookup_insert_eq by (by rewrite length_insert). simpl.
    rewrite list_insert_insert_eq.
    by destruct (bool_decide (0 < length (rec_chunks rc ++ [data]))).
  - rewrite list_lookup_insert_eq by done. simpl.
    by destruct (bool_decide (0 < length (rec_chunks rc))).
Qed.

Lemma Flushed_skip (d : Doc) (r : nat) (data : Blob) :
  (∀ rc, recorders d !! r = Some rc → rec_flushing rc = false) →
  deliver (Flushed r data) d = (d, [], Return tt).
Proof.
  intros H. unfold deliver. exec.
  destruct (recorders d !! r) as [rc|] eqn:E; [|done].
  by rewrite (H rc eq_refl).
Qed.

Lemma Inv_flushed (d : Doc) (r : nat) (data : Blob) :
  Inv d → Inv (step (Flushed r data) d).
Proof.
  intros HI. unfold step.
  destruct (recorders d !! r) as [rc|] eqn:E.
  - destruct (rec_flushing rc) eqn:F.
    + rewrite (Flushed_run d r rc data E F). by eapply Inv_recorder_update.
    + rewrite Flushed_skip; [done|]. intros rc' E'. congruence.
  - rewrite Flushed_skip; [done|]. intros rc' E'. congruence.
Qed.

(** A timer that is pending runs the rotation: the captured recorder is
    stopped, then a new one is constructed and started on the same
    stream, and the next timer is armed. *)
Lemma TimerFires_pending (d : Doc) (t : positive) (r : nat) :
  Inv d → timers d = [(t, r)] →
  ∃ ms rc,
    mediaStream d = Some ms ∧ mediaRecorder d = Some r ∧
    recorders d !! r = Some rc ∧ is_active rc = true ∧
    rec_stream rc = stream_id ms ∧
    deliver (TimerFires t) d
    = (mkDoc (Some (length (recorders d))) (Some ms) (audioContext d)
             (Some (next_timer d))
             (<[r := stopped rc]> (recorders d)
                ++ [mkRecorder (stream_id ms) recording [] false])
             [(next_timer d, length (recorders d))]
             (Pos.succ (next_timer d)),
       [RecorderStop r;
        RecorderNew (length (recorders d)) (stream_id ms);
        RecorderStart (length (recorders d));
        SetTimeout (next_timer d) 3000],
       Return tt).
Proof.
  intros [Ha Hb] Et. unfold timer_holds_current in Hb. rewrite Et in Hb.
  destruct Hb as (Ei & Em & [ms Es] & rc & Er & A).
  exists ms, rc. repeat split; try done.
  { destruct (Ha r rc Er A) as (_ & ms' & Es' & T). congruence. }
  unfold deliver, rotation_callback. exec. rewrite Et. simpl.
  rewrite decide_True by done. simpl. exec. rewrite Es, Et.
  rewrite filter_cons. simpl. rewrite decide_False by (by intros ?).
  rewrite filter_nil.
  destruct d as [mr ms' ac ri rs ts nt]. simpl in *. subst.
  rewrite (MediaRecorder_stop_active _ r rc) by done. exec.
  erewrite startRecordingParams_run by reflexivity. simpl.
  by rewrite length_insert.
Qed.

Lemma TimerFires_idle (d : Doc) (t : positive) :
  (∀ r, timers d ≠ [(t, r)]) → Inv d →
  deliver (TimerFires t) d = (d, [], Return tt).
Proof.
  intros Hn [_ Hb]. unfold timer_holds_current in Hb. unfold deliver. exec.
  destruct (timers d) as [|[t' r] [|? ?]]; try done.
  simpl. destruct (decide (t' = t)) as [->|]; [|done]. by destruct (Hn r).
Qed.

Lemma Inv_timer (d : Doc) (t : positive) : Inv d → Inv (step (TimerFires t) d).
Proof.
  intros HI. unfold step.
  destruct (timers d) as [|[t' r] [|? ?]] eqn:Et.
  - rewrite TimerFires_idle; [done| |done]. intros r. by rewrite Et.
  - destruct (decide (t' = t)) as [->|Hne].
    + destruct (TimerFires_pending d t r HI Et) as (ms & rc & Es & Em & Er & A & _ & ->).
      destruct HI as [Ha Hb]. pose proof (lookup_lt_Some _ _ _ Er) as Hlt.
      split.
      * intros i x. simpl. rewrite lookup_app_Some, length_insert.
        intros [E|[Hle E]] Ax.
        -- destruct (decide (i = r)) as [->|Hir].
           ++ rewrite list_lookup_insert_eq in E by done. by simplify_eq.
           ++ rewrite list_lookup_insert_ne in E by done.
              destruct (Ha i x E Ax) as [? _]. congruence.
        -- destruct (i - length (recorders d)) as [|n] eqn:En; [|done].
           simpl in E. simplify_eq. split; [f_equal; lia | by exists ms].
      * unfold timer_holds_current. simpl. repeat split; try done.
        exists (mkRecorder (stream_id ms) recording [] false). split; [|done].
        rewrite lookup_app_r by (by rewrite length_insert).
        by rewrite length_insert, Nat.sub_diag.
    + rewrite TimerFires_idle; [done| |done]. intros r'. rewrite Et. congruence.
  - destruct HI as [_ Hb]. unfold timer_holds_current in Hb. by rewrite Et in Hb.
Qed.

Lemma StartCapture_run (d : Doc) (ms : MediaStream) (ctx : nat) :
  deliver (StartCaptureMsg (Fulfilled ms) ctx) d
  = (mkDoc (Some (length (recorders d))) (Some ms) (Some ctx)
           (Some (next_timer d))
           (recorders d ++ [mkRecorder (stream_id ms) recording [] false])
           (timers d ++ [(next_timer d, length (recorders d))])
           (Pos.succ (next_timer d)),
     [ContextNew ctx; SetInterval 1000;
      RecorderNew (length (recorders d)) (stream_id ms);
      RecorderStart (length (recorders d));
      SetTimeout (next_timer d) 3000],
     Return tt).
Proof.
  unfold deliver, on_START_CAPTURE, startCapture, try_catch. exec.
  erewrite startRecordingParams_run by reflexivity. by exec.
Qed.

Lemma StartCapture_rejected (d : Doc) (e : string) (ctx : nat) :
  deliver (StartCaptureMsg (Rejected e) ctx) d = (d, [], Return tt).
Proof. reflexivity. Qed.

Lemma Inv_start (d : Doc) (stream : Outcome MediaStream) (ctx : nat) :
  Inv d → mediaStream d = None → Inv (step (StartCaptureMsg stream ctx) d).
Proof.
  intros [Ha Hb] Es. unfold step. destruct stream as [ms|e]; [|done].
  rewrite StartCapture_run.
  assert (timers d = []) as Et.
  { unfold timer_holds_current in Hb. destruct (timers d) as [|[t r] [|? ?]]; try done.
    destruct Hb as (_ & _ & [? ?] & _). congruence. }
  split.
  - intros i x. simpl. rewrite lookup_app_Some. intros [E|[Hle E]] Ax.
    + destruct (Ha i x E Ax) as [_ (? & ? & _)]. congruence.
    + destruct (i - length (recorders d)) as [|n] eqn:En; [|done].
      simpl in E. simplify_eq. split; [f_equal; lia | by exists ms].
  - unfold timer_holds_current. simpl. rewrite Et. simpl. repeat split; try done.
    exists (mkRecorder (stream_id ms) recording [] false). split; [|done].
    by rewrite lookup_app_r, Nat.sub_diag.
Qed.

Lemma single_capture_Inv (d : Doc) : single_capture d → Inv d.
Proof.
  induction 1; eauto using Inv_fresh, Inv_start, Inv_stop, Inv_timer, Inv_flushed.
Qed.

Lemma single_capture_reachable (d : Doc) : single_capture d → reachable d.
Proof. induction 1; by constructor. Qed.

Lemma filter_none {A} (P : A → Prop) `{∀ x, Decision (P x)} (l : list A) :
  (∀ i x, l !! i = Some x → ¬ P x) → filter P l = [].
Proof.
  induction l as [|y l IH]; [done|]. intros H0.
  rewrite filter_cons, decide_False by (by apply (H0 0)).
  apply IH. intros i x. apply (H0 (S i)).
Qed.

Lemma filter_at_most_one {A} (P : A → Prop) `{∀ x, Decision (P x)}
      (l : list A) (k : nat) :
  (∀ i x, l !! i = Some x → P x → i = k) → length (filter P l) ≤ 1.
Proof.
  revert k. induction l as [|y l IH]; intros k Hk; [simpl; lia|].
  rewrite filter_cons. destruct (decide (P y)) as [Hy|Hy].
  - rewrite filter_none; [simpl; lia|].
    intros i x E Px. pose proof (Hk 0 y eq_refl Hy). pose proof (Hk (S i) x E Px). lia.
  - apply (IH (pred k)). intros i x E Px. pose proof (Hk (S i) x E Px). lia.
Qed.

Lemma Inv_active_count (d : Doc) : Inv d → active_count d ≤ 1.
Proof.
  intros [Ha _]. unfold active_count.
  destruct (mediaRecorder d) as [r|] eqn:Em.
  - apply (filter_at_most_one _ _ r). intros i x E Ax.
    destruct (Ha i x E Ax) as [? _]. congruence.
  - rewrite filter_none; [simpl; lia|]. intros i x E Ax.
    destruct (Ha i x E Ax) as [? _]. congruence.
Qed.





Lemma Flushed_output (d : Doc) (r : nat) (data : Blob) :
  output (Flushed r data) d
  = match recorders d !! r with
    | Some rc => if rec_flushing rc then flush_messages (flushed_chunks rc data) else []
    | None => []
    end.
Proof.
  unfold output. destruct (recorders d !! r) as [rc|] eqn:E.
  - destruct (rec_flushing rc) eqn:F.
    + by rewrite (Flushed_run d r rc data E F).
    + rewrite Flushed_skip; [done|]. intros rc' E'. congruence.
  - rewrite Flushed_skip; [done|]. intros rc' E'. congruence.
Qed.



(** ** Properties of the capture pipeline *)

(** C9. [stopCapture] never raises and is idempotent. Its platform calls
    are, in this order, the cancellation of the pending rotation timer,
    the stop of the encoder if one is active, the stop of every track of
    the stream and the closing of the playback context; the cancelled
    timer is no longer pending. A second call does nothing and leaves the
    state of the first; on a document where capture was never started
    (every handle null) the call does nothing at all. *)
Theorem stopCapture_idempotent (d : Doc) :
  completion_of (stopCapture d) = Return tt ∧
  effects_of (stopCapture d) = stop_effects d ∧
  (∀ t r, recordingInterval d = Some t → (t, r) ∉ timers (state_of (stopCapture d))) ∧
  stopCapture (state_of (stopCapture d)) = (state_of (stopCapture d), [], Return tt) ∧
  (∀ rs ts nt,
      stopCapture (mkDoc None None None None rs ts nt)
      = (mkDoc None None None None rs ts nt, [], Return tt)).
Proof.
  rewrite stopCapture_run. cbn [completion_of effects_of state_of fst snd].
  split; [reflexivity|]. split; [reflexivity|]. split; [|split].
  - intros t r Ei. cbn [timers]. unfold stop_timers. rewrite Ei.
    intros [H _]%list_elem_of_filter. by apply H.
  - by rewrite stopCapture_run.
  - intros rs ts nt. by rewrite stopCapture_run.
Qed.

Lemma Inv_timers_nonempty (d : Doc) :
  Inv d → timers d ≠ [] → ∃ t r, timers d = [(t, r)].
Proof.
  intros [_ Hb] Hne. unfold timer_holds_current in Hb.
  destruct (timers d) as [|[t r] [|? ?]]; [done|by eexists _, _|done].
Qed.

Lemma single_capture_bound_timer (d : Doc) :
  single_capture d → is_Some (mediaStream d) → timers d ≠ [].
Proof.
  induction 1 as [|d stream ctx Hd IH Es|d Hd IH|d t Hd IH|d r data Hd IH].
  - by intros [? ?].
  - unfold step. destruct stream as [ms|e].
    + rewrite StartCapture_run. cbn [state_of fst timers]. intros _.
      by destruct (timers d).
    + rewrite StartCapture_rejected. cbn [state_of fst]. rewrite Es. by intros [? ?].
  - unfold step, deliver, on_STOP_CAPTURE. exec. rewrite stopCapture_run.
    cbn [state_of fst mediaStream]. by intros [? ?].
  - pose proof (single_capture_Inv d Hd) as HI. unfold step.
    destruct (timers d) as [|[t' r] [|? ?]] eqn:Et.
    + rewrite TimerFires_idle; [|by intros r; rewrite Et|done].
      cbn [state_of fst]. by rewrite Et.
    + destruct (decide (t' = t)) as [->|Hne].
      * destruct (TimerFires_pending d t r HI Et) as (ms & rc & _ & _ & _ & _ & _ & ->).
        done.
      * rewrite TimerFires_idle; [|intros r'; rewrite Et; congruence|done].
        cbn [state_of fst]. by rewrite Et.
    + destruct HI as [_ Hb]. unfold timer_holds_current in Hb. by rewrite Et in Hb.
  - unfold step. destruct (recorders d !! r) as [rc|] eqn:E.
    + destruct (rec_flushing rc) eqn:F.
      * by rewrite (Flushed_run d r rc data E F).
      * rewrite Flushed_skip; [done|]. intros rc' E'. congruence.
    + rewrite Flushed_skip; [done|]. intros rc' E'. congruence.
Qed.

Lemma single_capture_timer_fresh (d : Doc) :
  single_capture d → ∀ t r, (t, r) ∈ timers d → (t < next_timer d)%positive.
Proof.
  induction 1 as [|d stream ctx Hd IH Es|d Hd IH|d t0 Hd IH|d r0 data Hd IH].
  - intros t r Hin. by apply elem_of_nil in Hin.
  - unfold step. destruct stream as [ms|e]; [|done].
    rewrite StartCapture_run. cbn [state_of fst timers next_timer].
    intros t r Hin. apply elem_of_app in Hin as [Hin|Hin].
    + specialize (IH t r Hin). lia.
    + apply list_elem_of_singleton in Hin. injection Hin as -> _. lia.
  - unfold step, deliver, on_STOP_CAPTURE. exec. rewrite stopCapture_run.
    cbn [state_of fst timers next_timer]. intros t r Hin. apply (IH t r).
    unfold stop_timers in Hin. destruct (recordingInterval d); [|done].
    by apply list_elem_of_filter in Hin as [_ Hin].
  - pose proof (single_capture_Inv d Hd) as HI. unfold step.
    destruct (timers d) as [|[t' r'] [|? ?]] eqn:Et.
    + rewrite TimerFires_idle; [|by intros r; rewrite Et|done].
      cbn [state_of fst]. by rewrite Et.
    + destruct (decide (t' = t0)) as [->|Hne].
      * destruct (TimerFires_pending d t0 r' HI Et) as (ms & rc & _ & _ & _ & _ & _ & ->).
        cbn [state_of fst timers next_timer]. intros t r Hin.
        apply list_elem_of_singleton in Hin. injection Hin as -> _. lia.
      * rewrite TimerFires_idle; [|intros r; rewrite Et; congruence|done].
        cbn [state_of fst]. by rewrite Et.
    + destruct HI as [_ Hb]. unfold timer_holds_current in Hb. by rewrite Et in Hb.
  - unfold step. destruct (recorders d !! r0) as [rc|] eqn:E.
    + destruct (rec_flushing rc) eqn:F.
      * by rewrite (Flushed_run d r0 rc data E F).
      * rewrite Flushed_skip; [done|]. intros rc' E'. congruence.
    + rewrite Flushed_skip; [done|]. intros rc' E'. congruence.
Qed.

Lemma active_count_current (d : Doc) (r : nat) (rc : Recorder) :
  Inv d → recorders d !! r = Some rc → is_active rc = true → active_count d = 1.
Proof.
  intros HI Er A. pose proof (Inv_active_count d HI) as Hle.
  assert (rc ∈ filter (λ rc, is_active rc = true) (recorders d)) as Hin.
  { apply list_elem_of_filter. split; [done|]. by eapply list_elem_of_lookup_2. }
  unfold active_count in *.
  destruct (filter _ (recorders d)) as [|? ?]; [by apply elem_of_nil in Hin|].
  simpl in *. lia.
Qed.




Lemma rotated_once_single : single_capture rotated_once.
Proof. unfold rotated_once, run. simpl. do 2 constructor; [constructor|done]. Qed.




End OffscreenFacts.

(** ** Facts about the session orchestrator *)

Module BackgroundFacts.
Import Background.

Ltac exec :=
  repeat (cbn [mbind mret Exec_bind Exec_ret get modify emit throw hang await when
               try_catch state_of effects_of completion_of fst snd fmap option_fmap option_map
               isRecording ws apiKey apiUrl transcriptLines currentNotes
               wsAuthResolved storage st_transcript st_notes st_isRecording
               url readyState connect_promise resolve
               set_isRecording set_ws set_transcriptLines set_currentNotes
               set_wsAuthResolved set_storage negb andb app];
          unfold mbind, mret, Exec_bind, Exec_ret, get, modify, emit, throw, hang, when,
            try_catch).

Lemma handle_spec (ev : SocketEvent) (s : State) :
  ∃ s' eff,
    handle ev s = (s', eff, Return tt) ∧
    isRecording s' = isRecording s ∧
    st_notes (storage s') = provisional ev (st_notes (storage s)) ∧
    (wsAuthResolved s = true → wsAuthResolved s' = true) ∧
    (ws s = None → ws s' = None).
Proof.
  destruct s as [rec [[u rs p]|] key api tl cn ar [stt stn str]];
    destruct ev as [|[]| | |]; unfold handle, socket_event, handleWebSocketMessage,
      broadcastToPopup, authResolver, set_readyState, store_transcript, store_notes;
    exec; try (destruct ar; exec);
    try (destruct (includes "API key" message); exec);
    try (destruct (bool_decide (rs ≠ OPEN)); exec);
    (do 2 eexists; split; [reflexivity|]; simpl; by repeat split).
Qed.

Lemma wait_final_notes_spec (events : list SocketEvent) (s : State) :
  ∃ s' eff,
    wait_final_notes events s = (s', eff, Return (first_final_notes events)) ∧
    isRecording s' = isRecording s ∧
    st_notes (storage s')
    = last_provisional (until_final_notes events) (st_notes (storage s)).
Proof.
  revert s. induction events as [|ev events IH]; intros s.
  - by exists s, [].
  - destruct (handle_spec ev s) as (s1 & e1 & H1 & R1 & N1 & _).
    destruct (IH s1) as (s2 & e2 & H2 & R2 & N2).
    cbn [wait_final_notes].
    unfold mbind, Exec_bind at 1. rewrite H1.
    destruct ev as [|[]| | |]; try rewrite H2;
      try (exists s2, (e1 ++ e2); split; [reflexivity|]; split; [congruence|];
           cbn [until_final_notes last_provisional foldl]; by rewrite N2, N1).
    exists s1, (e1 ++ []). by repeat split.
Qed.

Lemma closeOffscreenDocument_run (env : StopEnv) (s : State) :
  ∃ eff, closeOffscreenDocument env s
         = (s, eff, match close_error env with Some e => Throw e | None => Return tt end).
Proof.
  unfold closeOffscreenDocument, close_error.
  destruct (stop_getContexts env) as [n|e]; exec; [|eexists; reflexivity].
  destruct (bool_decide (0 < n)); exec; [|eexists; reflexivity].
  destruct (closeDocument env) as [[]|]; exec; eexists; reflexivity.
Qed.

Lemma stopRecording_spec (env : StopEnv) (s : State) :
  isRecording s = true →
  ∃ s' eff,
    stopRecording env s = (s', eff, Return (stop_response env s)) ∧
    isRecording s' = false ∧
    st_notes (storage s') = last_provisional (waited env s) (st_notes (storage s)).
Proof.
  intros Hrec. unfold stopRecording, stop_response, waited. exec. rewrite Hrec. exec.
  destruct (STOP_CAPTURE_reply env) as [rp|e]; exec; [|(do 2 eexists; split; [reflexivity|]; split; [reflexivity|]; simpl; congruence)].
  destruct (socket_open s) eqn:Ho; exec.
  - destruct (wait_final_notes_spec (final_wait env) s) as (s1 & e1 & -> & R1 & N1).
    destruct (bool_decide (is_Some (ws s1))); exec.
    + destruct (closeOffscreenDocument_run env (set_ws None s1)) as (e2 & ->).
      destruct (close_error env); exec; (do 2 eexists; split; [reflexivity|]; split; [reflexivity|]; simpl; congruence).
    + destruct (closeOffscreenDocument_run env s1) as (e2 & ->).
      destruct (close_error env); exec; (do 2 eexists; split; [reflexivity|]; split; [reflexivity|]; simpl; congruence).
  - destruct (bool_decide (is_Some (ws s))); exec.
    + destruct (closeOffscreenDocument_run env (set_ws None s)) as (e2 & ->).
      destruct (close_error env); exec; (do 2 eexists; split; [reflexivity|]; split; [reflexivity|]; simpl; congruence).
    + destruct (closeOffscreenDocument_run env s) as (e2 & ->).
      destruct (close_error env); exec; (do 2 eexists; split; [reflexivity|]; split; [reflexivity|]; simpl; congruence).
Qed.

Lemma handle_state (ev : SocketEvent) (s : State) :
  isRecording (state_of (handle ev s)) = isRecording s.
Proof. destruct (handle_spec ev s) as (s' & eff & -> & R & _). exact R. Qed.

Lemma step_keeps_recording (ev : Event) (s : State) :
  is_stop ev = false → isRecording s = true → isRecording (step ev s) = true.
Proof.
  intros Hs Hr. destruct ev as [env|env|ev|m|]; [|done| | |]; unfold step, deliver.
  - unfold startRecording. exec. by rewrite Hr.
  - by rewrite handle_state.
  - unfold onAudioData. exec.
    destruct (bool_decide _ && bool_decide _); exec; [|done].
    by destruct (socket_open s).
  - unfold heartbeat. exec. by destruct (socket_open s).
Qed.

Lemma run_keeps_recording (evs : list Event) (s : State) :
  Forall (λ ev, is_stop ev = false) evs → isRecording s = true →
  isRecording (run evs s) = true.
Proof.
  intros Hevs. revert s. induction Hevs as [|ev evs Hev _ IH]; intros s Hr; [done|].
  apply IH. by apply step_keeps_recording.
Qed.

Lemma handle_never_true (ev : SocketEvent) (s : State) :
  never_true s →
  ∃ s' eff, handle ev s = (s', eff, Return tt) ∧ never_true s'.
Proof.
  intros [Ha Hp]. unfold never_true.
  destruct s as [rec [[u rs p]|] key api tl cn ar [stt stn str]]; simpl in Ha; subst ar;
    [assert (p ≠ Resolved true) as Hne by (by apply (Hp _ eq_refl)); clear Hp|];
    destruct ev as [|[]| | |]; unfold handle, socket_event, handleWebSocketMessage,
      broadcastToPopup, authResolver, set_readyState, store_transcript, store_notes;
    exec;
    try (destruct (bool_decide (rs ≠ OPEN)); exec);
    (do 2 eexists; split; [reflexivity|]; simpl; split; [done|]; try done;
     intros w [= <-]; simpl; try done; by destruct p as [|[]]).
Qed.

Lemma await_connect_never_true (events : list SocketEvent) (s : State) :
  never_true s → completion_of (await_connect events s) ≠ Return true.
Proof.
  revert s. induction events as [|ev events IH]; intros s Hn.
  - cbn [await_connect]. exec. destruct Hn as [_ Hp].
    destruct (ws s) as [[u rs [|b]]|] eqn:Ew; exec; try done.
    intros [= ->]. by apply (Hp _ eq_refl).
  - cbn [await_connect]. exec.
    destruct (handle_never_true ev s Hn) as (s1 & e1 & H1 & Hn1).
    specialize (IH s1 Hn1). destruct Hn as [_ Hp].
    destruct (ws s) as [[u rs [|b]]|] eqn:Ew; exec; rewrite ?H1.
    + by destruct (await_connect events s1) as [[? ?] ?].
    + intros [= ->]. by apply (Hp _ eq_refl).
    + by destruct (await_connect events s1) as [[? ?] ?].
Qed.

Lemma connectWebSocket_never_true (constructed : Outcome unit)
      (events : list SocketEvent) (s : State) :
  wsAuthResolved s = true →
  completion_of (connectWebSocket constructed events s) ≠ Return true.
Proof.
  intros Ha. unfold connectWebSocket. exec. destruct constructed as [[]|e]; exec; [|done].
  match goal with
  | |- context [await_connect events ?s0] =>
      pose proof (await_connect_never_true events s0) as H;
      destruct (await_connect events s0) as [[? ?] ?]
  end.
  apply H. split; [done|]. by intros w [= <-].
Qed.

Lemma handle_stuck (ev : SocketEvent) (s : State) :
  stuck s → quiet ev = true →
  ∃ s' eff, handle ev s = (s', eff, Return tt) ∧ stuck s'.
Proof.
  intros (Ha & w & Ew & Eo & Ep) Hq. unfold stuck.
  destruct s as [rec [[u rs p]|] key api tl cn ar [stt stn str]]; [|done].
  simpl in *. simplify_eq. simpl in *. subst.
  destruct ev as [|[]| | |]; try done; unfold handle, socket_event,
    handleWebSocketMessage, broadcastToPopup, authResolver, set_readyState,
    store_transcript, store_notes; exec;
    (do 2 eexists; split; [reflexivity|]; simpl; split; [done|]; by eexists).
Qed.

Lemma await_connect_stuck (events : list SocketEvent) (s : State) :
  stuck s → Forall (λ ev, quiet ev = true) events →
  completion_of (await_connect events s) = Hang.
Proof.
  intros Hs Hevs. revert s Hs.
  induction Hevs as [|ev events Hev _ IH]; intros s Hs.
  - destruct Hs as (_ & w & Ew & _ & Ep). cbn [await_connect]. exec.
    rewrite Ew. exec. by rewrite Ep.
  - destruct (handle_stuck ev s Hs Hev) as (s1 & e1 & H1 & Hs1).
    specialize (IH s1 Hs1). destruct Hs as (_ & w & Ew & _ & Ep).
    cbn [await_connect]. exec. rewrite Ew. exec. rewrite Ep, H1.
    by destruct (await_connect events s1) as [[? ?] ?].
Qed.

Lemma connectWebSocket_stuck (events : list SocketEvent) (s : State) :
  wsAuthResolved s = true → Forall (λ ev, quiet ev = true) events →
  completion_of (connectWebSocket (Fulfilled tt) (Open :: events) s) = Hang.
Proof.
  intros Ha Hevs. unfold connectWebSocket. exec. cbn [await_connect]. exec.
  unfold handle, socket_event, set_readyState. exec.
  match goal with
  | |- context [await_connect events ?s0] =>
      pose proof (await_connect_stuck events s0) as H;
      destruct (await_connect events s0) as [[? ?] ?]
  end.
  apply H; [|done]. split; [done|]. by eexists.
Qed.

Lemma await_connect_state (events : list SocketEvent) (s : State) :
  isRecording (state_of (await_connect events s)) = isRecording s.
Proof.
  revert s. induction events as [|ev events IH]; intros s.
  - cbn [await_connect]. exec. by destruct (ws s) as [[u rs [|b]]|].
  - cbn [await_connect]. exec.
    destruct (handle_spec ev s) as (s1 & e1 & H1 & R1 & _). specialize (IH s1).
    destruct (ws s) as [[u rs [|b]]|]; exec; rewrite ?H1; try done;
      destruct (await_connect events s1) as [[? ?] ?];
      unfold state_of in *; simpl in *; congruence.
Qed.

(** Every start that answers with a failure leaves [isRecording] clear. *)
Lemma failed_start_stays_idle (env : StartEnv) (s : State) (e : string) :
  isRecording s = false →
  completion_of (startRecording env s) = Return (success_false e) →
  isRecording (state_of (startRecording env s)) = false.
Proof.
  intros Hr.
  unfold startRecording, connectWebSocket, setupOffscreenDocument, broadcastToPopup.
  destruct env as [tq nw se gc cd gm rp].
  cbn [tabs_query new_WebSocket socket_events start_getContexts createDocument
       getMediaStreamId START_CAPTURE_reply].
  exec. rewrite Hr.
  destruct tq as [[tab|]|e0]; exec; try done.
  destruct nw as [[]|e1]; exec; try done.
  match goal with
  | |- context [await_connect se ?s0] =>
      pose proof (await_connect_state se s0) as Hs;
      destruct (await_connect se s0) as [[s1 eff1] [[|]| |]]
  end; unfold state_of in Hs; simpl in Hs; exec; try (intros; congruence).
  destruct gc as [n|e2]; exec; try (intros; congruence).
  destruct (bool_decide (0 < n)); exec.
  - destruct gm as [sid|e3]; exec; try (intros; congruence).
    destruct rp; exec; intros; congruence.
  - destruct cd as [[]|e3]; exec; try (intros; congruence).
    destruct gm as [sid|e4]; exec; try (intros; congruence).
    destruct rp; exec; intros; congruence.
Qed.

Lemma until_final_notes_timeout (events : list SocketEvent) :
  first_final_notes events = None → until_final_notes events = events.
Proof.
  induction events as [|ev events IH]; [done|].
  destruct ev as [|[]| | |]; cbn [first_final_notes until_final_notes];
    try done; intros H; by rewrite IH.
Qed.

(** ** Properties of the session orchestrator *)

(** C1. A start command received while [isRecording] is set answers
    [{success: false, error: "Already recording"}], makes no platform call
    and leaves every global (flag, transcript, notes, connection) and the
    store as they were. *)
Theorem start_while_recording (env : StartEnv) (s : State) :
  isRecording s = true →
  startRecording env s = (s, [], Return (success_false "Already recording")).
Proof. intros Hr. unfold startRecording. exec. by rewrite Hr. Qed.

Lemma start_while_recording_witness :
  isRecording recording_state = true ∧
  startRecording good_start recording_state
  = (recording_state, [], Return (success_false "Already recording")).
Proof.
  split; [reflexivity|]. apply (start_while_recording good_start recording_state).
  reflexivity.
Defined.




Lemma run_socket_notes (events : list SocketEvent) (s : State) :
  st_notes (storage (run (Socket <$> events) s))
  = last_provisional events (st_notes (storage s)).
Proof.
  revert s. induction events as [|ev events IH]; intros s; [done|].
  cbn [fmap list_fmap run foldl]. unfold run in IH. rewrite IH.
  unfold last_provisional. cbn [foldl]. f_equal.
  unfold flip, step, deliver.
  by destruct (handle_spec ev s) as (s1 & e1 & -> & _ & N1 & _).
Qed.

(** What the store holds once the click handler of the stop button has
    run, in terms of the worker's stop. *)
Lemma on_stop_click_notes (env : StopEnv) (w : Popup.World) :
  isRecording (Popup.worker w) = true →
  Popup.persisted_after_stop env w
  = match stop_response env (Popup.worker w) with
    | success_notes (Some doc) =>
        if Popup.no_summary doc then st_notes (storage (state_of (stopRecording env (Popup.worker w))))
        else Some doc
    | _ => st_notes (storage (state_of (stopRecording env (Popup.worker w))))
    end.
Proof.
  intros Hr. unfold Popup.persisted_after_stop.
  destruct (stopRecording_spec env _ Hr) as (s' & eff & E & _ & _).
  unfold Popup.on_stop_click, Popup.sendMessage, handleMessage.
  unfold Popup.updateUI, Popup.renderNotes, Popup.storage_set. exec. rewrite !E. exec.
  destruct (stop_response env (Popup.worker w)) as [|[doc|]|e]; simpl; try done.
  by destruct (Popup.no_summary doc).
Qed.

(** C4 (amended). A stop command does not reset the persisted notes, and
    the worker persists nothing when it stops. With [s] a recording state
    and [events] what happens on the socket between [s] and the stop
    command, the notes in the store when [stopRecording] returns are the
    last provisional [notes] document among [events] and the events of
    the wait, or what was persisted in [s] when there is none. When the
    wait times out they stay so: a provisional document is retained, and
    the notes are [null] only if they were [null] before and no
    provisional document arrived. When the final notes arrive, the worker
    returns them if the stop succeeds, and the stop handler of the popup
    then saves them if their summary is not empty: the persisted notes
    are then the last document received; when the stop fails or the
    summary is empty the store keeps what it held. *)
Theorem stop_persists_notes
        (env : StopEnv) (s : State) (events : list SocketEvent) (w : Popup.World) :
  isRecording s = true → Popup.worker w = run (Socket <$> events) s →
  st_notes (storage (state_of (stopRecording env (Popup.worker w))))
  = last_provisional (events ++ waited env (Popup.worker w)) (st_notes (storage s)) ∧
  (first_final_notes (final_wait env) = None →
   Popup.persisted_after_stop env w
   = last_provisional (events ++ whole_wait env (Popup.worker w)) (st_notes (storage s)) ∧
   st_notes (storage (state_of (stopRecording env (Popup.worker w))))
   = last_provisional (events ++ whole_wait env (Popup.worker w)) (st_notes (storage s))) ∧
  (∀ doc,
      socket_open (Popup.worker w) = true →
      (∃ r, STOP_CAPTURE_reply env = Fulfilled r) →
      first_final_notes (final_wait env) = Some doc →
      completion_of (stopRecording env (Popup.worker w))
      = Return (match close_error env with
                | None => success_notes (Some doc)
                | Some e => success_false e
                end) ∧
      Popup.persisted_after_stop env w
      = match close_error env with
        | None =>
            if Popup.no_summary doc
            then last_provisional (events ++ waited env (Popup.worker w))
                                  (st_notes (storage s))
            else Some doc
        | Some _ =>
            last_provisional (events ++ waited env (Popup.worker w)) (st_notes (storage s))
        end).
Proof.
  intros Hr Ew.
  assert (isRecording (Popup.worker w) = true) as Hr1.
  { rewrite Ew. apply run_keeps_recording; [|done]. apply Forall_fmap. by apply Forall_true. }
  assert (st_notes (storage (state_of (stopRecording env (Popup.worker w))))
          = last_provisional (events ++ waited env (Popup.worker w)) (st_notes (storage s)))
    as Hkept.
  { destruct (stopRecording_spec env _ Hr1) as (s' & eff & -> & _ & N).
    cbn [state_of fst]. rewrite N. unfold last_provisional. rewrite foldl_app.
    f_equal. rewrite Ew. apply run_socket_notes. }
  pose proof (on_stop_click_notes env w Hr1) as Hp.
  split; [exact Hkept|]. split.
  - intros Ht.
    assert (waited env (Popup.worker w) = whole_wait env (Popup.worker w)) as Ewait.
    { unfold waited, whole_wait. by rewrite (until_final_notes_timeout _ Ht). }
    rewrite <- Ewait. split; [|exact Hkept].
    rewrite Hp, Hkept. unfold stop_response. rewrite Ht.
    destruct (STOP_CAPTURE_reply env); [|done].
    destruct (close_error env); [done|]. by destruct (socket_open _).
  - intros doc Ho [r Es] Ef. split.
    + destruct (stopRecording_spec env _ Hr1) as (s' & eff & -> & _).
      cbn [completion_of snd]. unfold stop_response. rewrite Es, Ho, Ef.
      by destruct (close_error env).
    + rewrite Hp, Hkept. unfold stop_response. rewrite Es, Ho, Ef.
      by destruct (close_error env).
Qed.

Lemma stop_persists_notes_witness :
  isRecording recording_state = true ∧
  Popup.persisted_after_stop silent_stop (Popup.opened noted_state) = Some live_notes ∧
  Popup.persisted_after_stop good_stop (Popup.opened noted_state) = Some closing_notes ∧
  Popup.persisted_after_stop failed_close_stop (Popup.opened noted_state) = Some live_notes.
Proof.
  destruct (stop_persists_notes silent_stop recording_state
              [MessageEv (notes live_notes)] (Popup.opened noted_state) eq_refl eq_refl)
    as (_ & Ht & _).
  destruct (stop_persists_notes good_stop recording_state
              [MessageEv (notes live_notes)] (Popup.opened noted_state) eq_refl eq_refl)
    as (_ & _ & Hf).
  destruct (stop_persists_notes failed_close_stop recording_state
              [MessageEv (notes live_notes)] (Popup.opened noted_state) eq_refl eq_refl)
    as (_ & _ & Hc).
  split; [reflexivity|]. split; [|split].
  - exact (proj1 (Ht eq_refl)).
  - exact (proj2 (Hf closing_notes eq_refl (ex_intro _ _ eq_refl) eq_refl)).
  - exact (proj2 (Hc closing_notes eq_refl (ex_intro _ _ eq_refl) eq_refl)).
Defined.

(** C4, the claim as stated fails, twice. A provisional notes document
    was persisted during the recording: when the final-notes wait times
    out the persisted notes are still that document, not [null]; and when
    final notes with an empty summary arrive, the worker returns them, the
    popup does not save them, and the persisted notes are still the
    provisional document, not the last one received. *)
Lemma stale_or_unsaved_notes :
  ¬ Popup.timeout_resets_notes ∧ ¬ Popup.final_notes_persisted.
Proof.
  split.
  - intros H.
    specialize (H silent_stop (Popup.opened noted_state) eq_refl eq_refl
                  (ex_intro _ _ eq_refl) eq_refl).
    vm_compute in H. discriminate H.
  - intros H.
    specialize (H Popup.blank_stop (Popup.opened noted_state) Popup.blank_notes
                  eq_refl eq_refl (ex_intro _ _ eq_refl) eq_refl).
    vm_compute in H. discriminate H.
Qed.

(** C7 (amended). A stop command received while not recording answers
    [{success: false, error: "Not recording"}] at once and does nothing
    else: no request to the capture document, no closing of the socket or
    of the offscreen document, no change to any global or to the store. *)
Theorem stop_while_idle (env : StopEnv) (s : State) :
  isRecording s = false →
  stopRecording env s = (s, [], Return (success_false "Not recording")).
Proof. intros Hr. unfold stopRecording. exec. by rewrite Hr. Qed.

Lemma stop_while_idle_witness :
  isRecording stray_state = false ∧
  stopRecording good_stop stray_state
  = (stray_state, [], Return (success_false "Not recording")).
Proof.
  split; [reflexivity|]. apply (stop_while_idle good_stop stray_state). reflexivity.
Defined.

(** C7, the claim as stated fails: after a start that failed once the
    socket was open and the offscreen document created, a stop command
    makes no platform call at all. *)
Lemma idle_stop_resets_nothing : ¬ stop_resets_when_idle.
Proof.
  intros H. destruct (H good_stop stray_state eq_refl) as [_ [Hin|Hin]];
    vm_compute in Hin; by apply not_elem_of_nil in Hin.
Qed.

(** C8. While recording, an error event and a close event of the socket
    only notify the popup; the recording flag, the transcript, the notes
    and the store are untouched, and no sequence of events without a stop
    command clears the flag. *)
Theorem connection_loss_keeps_recording (s : State) :
  isRecording s = true →
  effects_of (deliver (Socket ErrorEv) s)
  = [ToPopup (ERROR "WebSocket connection failed")] ∧
  effects_of (deliver (Socket CloseEv) s) = [ToPopup (CONNECTION_STATUS false)] ∧
  (∀ ev, ev = ErrorEv ∨ ev = CloseEv →
         isRecording (step (Socket ev) s) = true ∧
         transcriptLines (step (Socket ev) s) = transcriptLines s ∧
         currentNotes (step (Socket ev) s) = currentNotes s ∧
         storage (step (Socket ev) s) = storage s) ∧
  (∀ evs, Forall (λ ev, is_stop ev = false) evs → isRecording (run evs s) = true).
Proof.
  intros Hr.
  assert (∀ ev, ev = ErrorEv ∨ ev = CloseEv →
            ∃ s', handle ev s
                  = (s', [ToPopup (match ev with
                                   | ErrorEv => ERROR "WebSocket connection failed"
                                   | _ => CONNECTION_STATUS false
                                   end)], Return tt) ∧
                  isRecording s' = isRecording s ∧
                  transcriptLines s' = transcriptLines s ∧
                  currentNotes s' = currentNotes s ∧ storage s' = storage s) as Hloss.
  { intros ev [-> | ->];
      unfold handle, socket_event, broadcastToPopup, authResolver, set_readyState; exec;
      destruct s as [rec [[u rs p]|] key api tl cn ar st]; by eexists. }
  split; [|split; [|split]].
  - destruct (Hloss ErrorEv (or_introl eq_refl)) as (s' & Hh & _).
    unfold deliver. by rewrite Hh.
  - destruct (Hloss CloseEv (or_intror eq_refl)) as (s' & Hh & _).
    unfold deliver. by rewrite Hh.
  - intros ev Hev. destruct (Hloss ev Hev) as (s' & Hh & R & T & N & St).
    unfold step, deliver. rewrite Hh. cbn [state_of fst]. by rewrite R.
  - intros evs Hevs. by apply run_keeps_recording.
Qed.

Lemma connection_loss_keeps_recording_witness :
  isRecording recording_state = true ∧
  isRecording (run [Socket ErrorEv; Socket CloseEv; Heartbeat] recording_state) = true.
Proof.
  split; [reflexivity|].
  destruct (connection_loss_keeps_recording recording_state eq_refl) as (_ & _ & _ & H).
  apply H. by repeat constructor.
Defined.

(** C10. Whatever [isRecording] says, an [AUDIO_DATA] message addressed to
    the background is forwarded as one [audio] frame exactly when the
    socket exists and is open; otherwise no frame is sent, and in either
    case the listener completes without raising and changes no state. *)
Theorem audio_forwarded_iff_open (m : Message) (s : State) :
  state_of (onAudioData m s) = s ∧
  completion_of (onAudioData m s) = Return tt ∧
  frames (effects_of (onAudioData m s))
  = (if bool_decide (msg_type m = "AUDIO_DATA")
        && bool_decide (msg_target m = Some "background")
        && socket_open s
     then [audio (msg_data m) (format_or_webm (msg_format m))]
     else []) ∧
  (socket_open s = true ↔ ∃ w, ws s = Some w ∧ readyState w = OPEN) ∧
  (∀ b, effects_of (onAudioData m (set_isRecording b s)) = effects_of (onAudioData m s)).
Proof.
  assert (socket_open s = true ↔ ∃ w, ws s = Some w ∧ readyState w = OPEN) as Hopen.
  { unfold socket_open. destruct (ws s) as [w|].
    - rewrite bool_decide_eq_true. split; [by exists w|]. by intros (? & [= <-] & ?).
    - split; [done|]. by intros (? & ? & _). }
  unfold onAudioData. exec.
  assert (∀ b, socket_open (set_isRecording b s) = socket_open s) as Hb by done.
  destruct (bool_decide (msg_type m = "AUDIO_DATA") &&
            bool_decide (msg_target m = Some "background")); exec;
    [destruct (socket_open s) eqn:Ho; exec|];
    (split; [reflexivity|]; split; [reflexivity|]; split; [reflexivity|];
     split; [exact Hopen|]; intros b; rewrite ?Hb, ?Ho; reflexivity).
Qed.

(** C3 (what the code does). [wsAuthResolved] is a global that is set by
    the first attempt that a frame resolves and never cleared. A first
    attempt on which the socket opens and [auth_success] arrives resolves
    with success. After that, no attempt resolves with success whatever
    happens on the socket, and an attempt on which the socket opens and
    neither an error nor a close occurs is never resolved: neither by
    [auth_success] nor by the 10 s timer, which only resolves when the
    socket is not open. The second [startRecording] therefore never
    returns. *)
Theorem connect_after_resolved_session :
  (∀ s constructed events,
      wsAuthResolved s = true →
      completion_of (connectWebSocket constructed events s) ≠ Return true) ∧
  (∀ s events,
      wsAuthResolved s = true → Forall (λ ev, quiet ev = true) events →
      completion_of (connectWebSocket (Fulfilled tt) (Open :: events) s) = Hang) ∧
  completion_of
    (connectWebSocket (Fulfilled tt) [Open; MessageEv auth_success; ConnectTimeout] initial)
  = Return true ∧
  wsAuthResolved second_session_state = true ∧
  completion_of
    (connectWebSocket (Fulfilled tt) [Open; MessageEv auth_success; ConnectTimeout]
                      second_session_state)
  = Hang ∧
  completion_of (startRecording good_start second_session_state) = Hang.
Proof.
  split; [|split; [|split; [|split; [|split]]]].
  - intros s constructed events. apply connectWebSocket_never_true.
  - intros s events. apply connectWebSocket_stuck.
  - reflexivity.
  - reflexivity.
  - reflexivity.
  - reflexivity.
Qed.

(** C6 (what the code does). The answer of the capture document to
    [START_CAPTURE] is awaited and dropped: [startRecording] behaves the
    same whatever the answer says. When [getUserMedia] is refused the
    document answers [{success: false, error}] and holds no stream, and
    [startRecording] still sets [isRecording] and answers
    [{success: true}]. *)
Theorem start_ignores_capture_reply :
  (∀ env s r,
      startRecording (with_START_CAPTURE_reply (Fulfilled r) env) s
      = startRecording
          (with_START_CAPTURE_reply (Fulfilled (Offscreen.mkReply true None)) env) s) ∧
  Offscreen.on_START_CAPTURE (Rejected "NotAllowedError") 5 Offscreen.fresh
  = (Offscreen.fresh, [], Return (Offscreen.mkReply false (Some "NotAllowedError"))) ∧
  completion_of (startRecording capture_failed_start initial) = Return success_true ∧
  isRecording (state_of (startRecording capture_failed_start initial)) = true.
Proof.
  split; [|by repeat split].
  intros [tq nw se gc cd gm rp] s r. reflexivity.
Qed.

End BackgroundFacts.


(** ** Further properties of the capture pipeline *)

Module CaptureProperties.
Import Offscreen OffscreenFacts.



(** X2. [stopCapture] does not suppress the last chunk: the recorder it stops
    still gets its final flush, and when that flush carries data the
    [onstop] handler sends it as one [AUDIO_DATA] message to the
    background, after every handle of the script has been reset. *)
Theorem final_chunk_survives_stopCapture
        (d : Doc) (r : nat) (rc : Recorder) (data : Blob) :
  mediaRecorder d = Some r → recorders d !! r = Some rc → is_active rc = true →
  0 < length data →
  mediaStream (step StopCaptureMsg d) = None ∧
  mediaRecorder (step StopCaptureMsg d) = None ∧
  output (Flushed r data) (step StopCaptureMsg d)
  = [SendMessage (mkMessage "AUDIO_DATA" (Some "background")
                            (concat (rec_chunks rc ++ [data])) (Some "webm"))].
Proof.
  intros Em Er A Hd. unfold step at 1 2, deliver, on_STOP_CAPTURE. exec.
  rewrite stopCapture_run. cbn [state_of fst mediaStream mediaRecorder].
  split; [done|]. split; [done|].
  rewrite Flushed_output. unfold step, deliver, on_STOP_CAPTURE. exec.
  rewrite stopCapture_run. cbn [state_of fst recorders].
  unfold stop_recorders. rewrite Em, Er, A.
  rewrite list_lookup_insert_eq by (by eapply lookup_lt_Some).
  cbn [stopped rec_flushing]. unfold flushed_chunks, flush_messages. cbn [rec_chunks].
  rewrite (bool_decide_eq_true_2 _ Hd).
  rewrite bool_decide_eq_true_2; [done|]. rewrite length_app. simpl. lia.
Qed.

Lemma final_chunk_survives_stopCapture_witness :
  output (Flushed 0 [Byte.x52; Byte.x49]) (step StopCaptureMsg capturing)
  = [SendMessage (mkMessage "AUDIO_DATA" (Some "background")
                            [Byte.x52; Byte.x49] (Some "webm"))].
Proof.
  destruct (final_chunk_survives_stopCapture capturing 0
              (mkRecorder 7 recording [] false) [Byte.x52; Byte.x49]
              eq_refl eq_refl eq_refl) as (_ & _ & H); [simpl; lia|].
  exact H.
Defined.

(** X3. [startCapture] does not look at a capture that is already
    running. A second [START_CAPTURE] without a stop in between leaves two
    recorders recording and two rotation timers pending; the
    [STOP_CAPTURE] that follows stops the second recorder only: the first
    one is still recording while no handle of the script refers to it, and
    its timer, when it comes due, stops nothing. *)
Theorem start_over_running_capture (d : Doc) (ms : MediaStream) (ctx : nat) :
  single_capture d → is_Some (mediaStream d) →
  let d1 := step (StartCaptureMsg (Fulfilled ms) ctx) d in
  let d2 := step StopCaptureMsg d1 in
  active_count d1 = 2 ∧ length (timers d1) = 2 ∧
  mediaRecorder d2 = None ∧ mediaStream d2 = None ∧ active_count d2 = 1 ∧
  ∀ t, output (TimerFires t) d2 = [] ∧ active_count (step (TimerFires t) d2) = 1.
Proof.
  intros Hr Hs. pose proof (single_capture_Inv d Hr) as HI.
  pose proof (single_capture_bound_timer d Hr Hs) as Hne.
  destruct (Inv_timers_nonempty d HI Hne) as (t0 & r0 & Et).
  pose proof (single_capture_timer_fresh d Hr t0 r0) as Hlt.
  rewrite Et in Hlt. specialize (Hlt (list_elem_of_here _ _)).
  pose proof HI as [_ Hb]. unfold timer_holds_current in Hb. rewrite Et in Hb.
  destruct Hb as (Ei & Em & _ & rc & Er & A).
  pose proof (active_count_current d r0 rc HI Er A) as Hc.
  intros d1 d2.
  assert (d1 = mkDoc (Some (length (recorders d))) (Some ms) (Some ctx)
                     (Some (next_timer d))
                     (recorders d ++ [mkRecorder (stream_id ms) recording [] false])
                     [(t0, r0); (next_timer d, length (recorders d))]
                     (Pos.succ (next_timer d))) as E1.
  { unfold d1, step. rewrite StartCapture_run. cbn [state_of fst]. by rewrite Et. }
  assert (d2 = mkDoc None None None None
                     (recorders d ++ [mkRecorder (stream_id ms) inactive [] true])
                     [(t0, r0)] (Pos.succ (next_timer d))) as E2.
  { unfold d2, step, deliver, on_STOP_CAPTURE. exec. rewrite stopCapture_run.
    cbn [state_of fst]. rewrite E1. unfold stop_recorders, stop_timers.
    cbn [mediaRecorder recorders recordingInterval timers next_timer].
    rewrite list_lookup_middle by done. cbn [is_active rec_state].
    rewrite insert_app_r_alt by done. rewrite Nat.sub_diag. cbn [stopped].
    f_equal. rewrite !filter_cons. cbn [fst].
    rewrite decide_True by lia. rewrite decide_False by (intros Hn; by apply Hn).
    done. }
  assert (∀ rc', is_active rc' = false →
                 length (filter (λ rc, is_active rc = true) (recorders d ++ [rc']))
                 = active_count d) as Hstopped.
  { intros rc' A'. rewrite filter_app, length_app, filter_cons, decide_False
      by (by rewrite A'). simpl. unfold active_count. lia. }
  split; [|split; [|split; [|split; [|split]]]].
  - rewrite E1. unfold active_count. cbn [recorders].
    rewrite filter_app, length_app. fold (active_count d). rewrite Hc. done.
  - by rewrite E1.
  - by rewrite E2.
  - by rewrite E2.
  - rewrite E2. unfold active_count. cbn [recorders]. by rewrite Hstopped.
  - intros t. rewrite E2. unfold output, step, deliver, rotation_callback. exec.
    cbn [list_find fst]. case_decide; simpl; (split; [done|]);
      unfold active_count; simpl; by rewrite Hstopped.
Qed.

Lemma start_over_running_capture_witness :
  active_count (step (StartCaptureMsg (Fulfilled tab_stream) 6) rotated_once) = 2 ∧
  active_count
    (step StopCaptureMsg (step (StartCaptureMsg (Fulfilled tab_stream) 6) rotated_once))
  = 1.
Proof.
  destruct (start_over_running_capture rotated_once tab_stream 6 rotated_once_single)
    as (H1 & _ & _ & _ & H2 & _); [by eexists|].
  split; [exact H1 | exact H2].
Defined.

End CaptureProperties.

(** ** Further properties of the session orchestrator *)

Module SessionProperties.
Import Background BackgroundFacts.

(** What one handler of the socket does to the session data, to the
    presence of the socket and to the platform. *)
Lemma handle_facts (ev : SocketEvent) (s : State) :
  ∃ s' eff,
    handle ev s = (s', eff, Return tt) ∧
    isRecording s' = isRecording s ∧
    transcriptLines s' = transcriptLines s ++ transcript_line ev ∧
    (synced s → synced s') ∧
    (is_Some (ws s') ↔ is_Some (ws s)) ∧
    Forall no_release eff.
Proof.
  unfold synced, no_release.
  destruct s as [rec [[u rs p]|] key api tl cn ar [stt stn str]];
    destruct ev as [|[]| | |]; unfold handle, socket_event, handleWebSocketMessage,
      broadcastToPopup, authResolver, set_readyState, store_transcript, store_notes;
    exec; try (destruct ar; exec);
    try (destruct (includes "API key" message); exec);
    try (destruct (bool_decide (rs ≠ OPEN)); exec);
    (do 2 eexists; split; [reflexivity|]; simpl; rewrite ?app_nil_r;
     split; [done|]; split; [done|];
     split; [intros [? ?]; simpl in *; by subst|];
     split; [split; intros [? ?]; by eexists || done|];
     repeat constructor; done).
Qed.

Lemma await_connect_facts (events : list SocketEvent) (s : State) :
  ∃ s' eff c,
    await_connect events s = (s', eff, c) ∧
    isRecording s' = isRecording s ∧
    (synced s → synced s') ∧
    (is_Some (ws s') ↔ is_Some (ws s)) ∧
    Forall no_release eff.
Proof.
  revert s. induction events as [|ev events IH]; intros s.
  - cbn [await_connect]. exec.
    destruct (ws s) as [[u rs [|b]]|] eqn:Ew; exec;
      (eexists _, _, _; split; [reflexivity|]; rewrite ?Ew;
       split; [done|]; split; [done|]; split; [done|]; constructor).
  - cbn [await_connect]. exec.
    destruct (handle_facts ev s) as (s1 & e1 & H1 & R1 & _ & S1 & W1 & F1).
    destruct (IH s1) as (s2 & e2 & c2 & H2 & R2 & S2 & W2 & F2).
    assert (∃ s' eff c,
              (s2, e1 ++ e2, c2) = (s', eff, c) ∧ isRecording s' = isRecording s ∧
              (synced s → synced s') ∧ (is_Some (ws s') ↔ is_Some (ws s)) ∧
              Forall no_release eff) as Hgo.
    { exists s2, (e1 ++ e2), c2. split; [done|]. split; [congruence|].
      split; [tauto|]. split; [by rewrite W2, W1|]. by apply Forall_app. }
    destruct (ws s) as [[u rs [|b]]|] eqn:Ew; exec; rewrite ?H1, ?H2;
      [by destruct c2| |by destruct c2].
    exists s, [], (Return b). rewrite Ew. split; [done|]. split; [done|].
    split; [done|]. split; [done|]. constructor.
Qed.

Lemma wait_final_notes_facts (events : list SocketEvent) (s : State) :
  ∃ s' eff,
    wait_final_notes events s = (s', eff, Return (first_final_notes events)) ∧
    (synced s → synced s') ∧
    (is_Some (ws s') ↔ is_Some (ws s)) ∧
    Forall no_release eff.
Proof.
  revert s. induction events as [|ev events IH]; intros s.
  - by exists s, [].
  - destruct (handle_facts ev s) as (s1 & e1 & H1 & _ & _ & S1 & W1 & F1).
    destruct (IH s1) as (s2 & e2 & H2 & S2 & W2 & F2).
    cbn [wait_final_notes]. unfold mbind, Exec_bind at 1. rewrite H1.
    destruct ev as [|[]| | |]; try rewrite H2;
      try (exists s2, (e1 ++ e2); split; [reflexivity|]; split; [tauto|];
           split; [by rewrite W2, W1|]; by apply Forall_app).
    exists s1, (e1 ++ []). split; [reflexivity|]. split; [done|].
    split; [done|]. by rewrite app_nil_r.
Qed.

Lemma connectWebSocket_facts
      (constructed : Outcome unit) (events : list SocketEvent) (s : State) :
  ∃ s' eff c,
    connectWebSocket constructed events s = (s', eff, c) ∧
    isRecording s' = isRecording s ∧
    (synced s → synced s') ∧
    Forall no_release eff ∧
    (c = Return true → wsAuthResolved s = false).
Proof.
  pose proof (connectWebSocket_never_true constructed events s) as Hnever.
  unfold connectWebSocket in *. revert Hnever. exec.
  destruct constructed as [[]|e]; exec.
  - match goal with
    | |- context [await_connect events ?s0] =>
        destruct (await_connect_facts events s0) as (s1 & e1 & c1 & -> & R & S & _ & F)
    end.
    intros Hnever. eexists s1, _, c1. split; [reflexivity|].
    split; [exact R|]. split; [exact S|]. split; [by constructor|].
    intros ->. destruct (wsAuthResolved s); [|done]. by destruct Hnever.
  - intros _. exists s, [], (Return false). split; [reflexivity|].
    split; [done|]. split; [done|]. split; [constructor|]. done.
Qed.

Ltac sync := first [assumption | done | (intros _; split; reflexivity)].

Ltac member := repeat first [by left | (apply elem_of_app; right) | right].

Ltac noreleases :=
  rewrite ?app_nil_r;
  repeat first [assumption | apply Forall_nil_2 | apply Forall_cons_2; [by split|]
               | apply Forall_app_2].

(** What [startRecording] does on every path, and what a success means. *)
Lemma startRecording_facts (env : StartEnv) (s : State) :
  ∃ s' eff c,
    startRecording env s = (s', eff, c) ∧
    (synced s → synced s') ∧
    Forall no_release eff ∧
    (c = Return success_true →
     isRecording s = false ∧ wsAuthResolved s = false ∧
     isRecording s' = true ∧ transcriptLines s' = [] ∧ currentNotes s' = None ∧
     storage s' = mkStorage [] None true ∧
     (∃ tab, tabs_query env = Fulfilled (Some tab)) ∧
     ∃ streamId, getMediaStreamId env = Fulfilled streamId ∧
                 ToOffscreen (START_CAPTURE streamId) ∈ eff ∧
                 ToPopup (STATUS "Recording...") ∈ eff).
Proof.
  unfold startRecording, setupOffscreenDocument, broadcastToPopup.
  destruct env as [tq nw se gc cd gm rp].
  cbn [tabs_query new_WebSocket socket_events start_getContexts createDocument
       getMediaStreamId START_CAPTURE_reply].
  exec. destruct (isRecording s) eqn:Hr; exec.
  { exists s, [], (Return (success_false "Already recording")).
    split; [done|]. split; [done|]. split; [noreleases|]. done. }
  assert (∀ a, releases a = false → a ≠ WsSend stop → no_release a) as Hno by done.
  destruct tq as [[tab|]|e0]; exec;
    try (eexists _, _, _; split; [reflexivity|]; split; [sync|];
         split; [noreleases|]; done).
  destruct (connectWebSocket_facts nw se s) as (s1 & e1 & c1 & -> & R1 & S1 & F1 & A1).
  destruct c1 as [[|]| |]; exec;
    try (eexists _, _, _; split; [reflexivity|]; split; [sync|];
         split; [noreleases|]; done).
  specialize (A1 eq_refl).
  destruct gc as [n|e2]; exec;
    [|eexists _, _, _; split; [reflexivity|]; split; [sync|];
      split; [noreleases|]; done].
  destruct (bool_decide (0 < n)); exec.
  - destruct gm as [sid|e3]; exec;
      [|eexists _, _, _; split; [reflexivity|]; split; [sync|];
        split; [noreleases|]; done].
    destruct rp as [rp|e4]; exec.
    + eexists _, _, _. split; [reflexivity|]. split; [sync|].
      split; [noreleases|].
      intros _. repeat split; try done; [eexists; reflexivity|].
      exists sid. split; [done|].
      split; member.
    + eexists _, _, _. split; [reflexivity|]. split; [sync|].
      split; [noreleases|]. done.
  - destruct cd as [[]|e3]; exec;
      [|eexists _, _, _; split; [reflexivity|]; split; [sync|];
        split; [noreleases|]; done].
    destruct gm as [sid|e4]; exec;
      [|eexists _, _, _; split; [reflexivity|]; split; [sync|];
        split; [noreleases|]; done].
    destruct rp as [rp|e5]; exec.
    + eexists _, _, _. split; [reflexivity|]. split; [sync|].
      split; [noreleases|].
      intros _. repeat split; try done; [eexists; reflexivity|].
      exists sid. split; [done|].
      split; member.
    + eexists _, _, _. split; [reflexivity|]. split; [sync|].
      split; [noreleases|]. done.
Qed.

Lemma closeOffscreenDocument_calls (env : StopEnv) (s : State) :
  ∃ eff,
    closeOffscreenDocument env s
    = (s, eff, match close_error env with Some e => Throw e | None => Return tt end) ∧
    (eff = [] ∨ eff = [CloseDocument]).
Proof.
  unfold closeOffscreenDocument, close_error.
  destruct (stop_getContexts env) as [n|e]; exec; [|eexists; split; [reflexivity|by left]].
  destruct (bool_decide (0 < n)); exec; [|eexists; split; [reflexivity|by left]].
  destruct (closeDocument env) as [[]|]; exec; eexists; split; reflexivity || by right.
Qed.

Lemma stopRecording_synced (env : StopEnv) (s : State) :
  synced s → synced (state_of (stopRecording env s)).
Proof.
  intros Hs. unfold stopRecording. exec. destruct (isRecording s); exec; [|done].
  destruct (STOP_CAPTURE_reply env) as [rp|e]; exec; [|done].
  assert (∀ s1 : State, synced s1 →
            synced (state_of (closeOffscreenDocument env s1))
            ∧ synced (set_isRecording false s1) ∧ synced (set_ws None s1)) as Hc.
  { intros s1 H1. destruct (closeOffscreenDocument_calls env s1) as (e2 & -> & _).
    by destruct (close_error env). }
  destruct (socket_open s); exec.
  - destruct (wait_final_notes_facts (final_wait env) s) as (s1 & e1 & -> & S1 & _ & _).
    specialize (S1 Hs).
    destruct (bool_decide (is_Some (ws s1))); exec.
    + destruct (closeOffscreenDocument_calls env (set_ws None s1)) as (e2 & -> & _).
      by destruct (close_error env).
    + destruct (closeOffscreenDocument_calls env s1) as (e2 & -> & _).
      by destruct (close_error env).
  - destruct (bool_decide (is_Some (ws s))); exec.
    + destruct (closeOffscreenDocument_calls env (set_ws None s)) as (e2 & -> & _).
      by destruct (close_error env).
    + destruct (closeOffscreenDocument_calls env s) as (e2 & -> & _).
      by destruct (close_error env).
Qed.

Lemma step_synced (ev : Event) (s : State) : synced s → synced (step ev s).
Proof.
  intros Hs. destruct ev as [env|env|ev|m|]; unfold step, deliver.
  - exec. destruct (startRecording_facts env s) as (s' & eff & c & -> & S & _).
    destruct c; by apply S.
  - exec. pose proof (stopRecording_synced env s Hs) as H.
    by destruct (stopRecording env s) as [[? ?] []].
  - destruct (handle_facts ev s) as (s' & eff & -> & _ & _ & S & _). by apply S.
  - unfold onAudioData. exec.
    destruct (bool_decide _ && bool_decide _); exec; [|done].
    by destruct (socket_open s).
  - unfold heartbeat. exec. by destruct (socket_open s).
Qed.

(** X4. Transcript lines are appended in the order in which the
    [transcript] frames arrive, one line per frame, and nothing else that
    happens on the socket touches the transcript. *)
Theorem transcript_in_arrival_order (events : list SocketEvent) (s : State) :
  transcriptLines (run (Socket <$> events) s)
  = transcriptLines s ++ concat (transcript_line <$> events).
Proof.
  revert s. induction events as [|ev events IH]; intros s.
  - simpl. by rewrite app_nil_r.
  - cbn [fmap list_fmap run foldl concat]. unfold run in IH. rewrite IH.
    unfold flip, step, deliver.
    destruct (handle_facts ev s) as (s' & eff & -> & _ & T & _).
    cbn [state_of fst]. by rewrite T, app_assoc.
Qed.

(** X5. Whatever the worker does keeps the store equal to what it holds
    in memory: after any sequence of commands, socket events, audio
    messages and heartbeats the persisted transcript and notes are the
    in-memory transcript and notes, provided they were so before. *)
Theorem store_mirrors_memory (evs : list Event) (s : State) :
  synced s → synced (run evs s).
Proof.
  revert s. induction evs as [|ev evs IH]; intros s Hs; [done|].
  apply IH. by apply step_synced.
Qed.

Lemma store_mirrors_memory_witness :
  synced initial ∧ synced used_state.
Proof.
  split; [by split|].
  apply (store_mirrors_memory
           [StartCommand good_start; Socket (MessageEv (transcript (Some "1.5") "hello"));
            Socket (MessageEv (notes live_notes)); StopCommand silent_stop] initial).
  by split.
Defined.

(** X6. A start that answers [{success: true}] was issued while not
    recording and before any frame had resolved a connect attempt of this
    worker; it leaves [isRecording] set and the transcript and notes
    empty in memory and in the store, and it has
    found an active tab, obtained a stream id, sent it to the capture
    document and told the popup that recording began. *)
Theorem successful_start_resets (env : StartEnv) (s : State) :
  completion_of (startRecording env s) = Return success_true →
  isRecording s = false ∧ wsAuthResolved s = false ∧
  isRecording (state_of (startRecording env s)) = true ∧
  transcriptLines (state_of (startRecording env s)) = [] ∧
  currentNotes (state_of (startRecording env s)) = None ∧
  storage (state_of (startRecording env s)) = mkStorage [] None true ∧
  (∃ tab, tabs_query env = Fulfilled (Some tab)) ∧
  ∃ streamId, getMediaStreamId env = Fulfilled streamId ∧
              ToOffscreen (START_CAPTURE streamId) ∈ effects_of (startRecording env s) ∧
              ToPopup (STATUS "Recording...") ∈ effects_of (startRecording env s).
Proof.
  destruct (startRecording_facts env s) as (s' & eff & c & -> & _ & _ & H).
  exact H.
Qed.

Lemma successful_start_resets_witness :
  completion_of (startRecording good_start initial) = Return success_true ∧
  isRecording (state_of (startRecording good_start initial)) = true ∧
  storage (state_of (startRecording good_start initial)) = mkStorage [] None true.
Proof.
  split; [reflexivity|].
  destruct (successful_start_resets good_start initial eq_refl)
    as (_ & _ & Hr & _ & _ & Hst & _).
  split; [exact Hr | exact Hst].
Defined.

(** X7. [startRecording] releases nothing, on any path: among its
    platform calls there is no closing of the socket, no closing of the
    offscreen document and no [STOP_CAPTURE] request. What a start that
    fails half-way has opened stays open. *)
Theorem start_never_releases (env : StartEnv) (s : State) :
  Forall (λ a, releases a = false) (effects_of (startRecording env s)).
Proof.
  destruct (startRecording_facts env s) as (s' & eff & c & -> & _ & F & _).
  cbn [effects_of fst snd]. eapply Forall_impl; [exact F|]. by intros a [? _].
Qed.

Lemma await_connect_resolved
      (events : list SocketEvent) (s : State) (w : WebSocket) (b : bool) :
  ws s = Some w → connect_promise w = Resolved b →
  await_connect events s = (s, [], Return b).
Proof.
  intros Ew Ep. destruct events; cbn [await_connect]; exec; rewrite Ew; exec;
    by rewrite Ep.
Qed.

Lemma await_connect_first
      (events : list SocketEvent) (s : State) (u : string) (rs : ReadyState) :
  wsAuthResolved s = false → ws s = Some (mkWebSocket u rs Pending) →
  completion_of (await_connect events s)
  = match first_outcome rs events with Some b => Return b | None => Hang end.
Proof.
  revert s rs. induction events as [|ev events IH]; intros s rs Ha Ew.
  - cbn [await_connect first_outcome]. exec. by rewrite Ew.
  - cbn [await_connect]. exec. rewrite Ew. exec.
    destruct s as [rec w key api tl cn ar st]. simpl in Ha, Ew. subst ar w.
    destruct ev as [|[]| | |]; unfold handle, socket_event, handleWebSocketMessage,
      broadcastToPopup, authResolver, set_readyState, store_transcript, store_notes;
      exec; cbn [first_outcome];
      try (destruct (includes "API key" message); exec);
      try (destruct (bool_decide (rs ≠ OPEN)); exec);
      match goal with
      | |- context [await_connect events ?s1] =>
          first
            [ rewrite (await_connect_resolved events s1 _ _ eq_refl eq_refl); reflexivity
            | pose proof (IH s1 _ eq_refl eq_refl) as H;
              destruct (await_connect events s1) as [[? ?] ?]; exact H ]
      end.
Qed.

(** X8. A connect attempt made before any frame has resolved one is
    decided by the first of these events, and by nothing after it:
    [auth_success] (success), an [error] frame that mentions the API key
    (failure), an error event of the socket (failure), or the 10 s timer
    coming due while the socket is not open (failure). The timer does
    nothing while the socket is open, other frames and a close event
    decide nothing, and if none of the deciding events occurs the attempt
    stays unresolved. When the socket cannot be constructed the attempt
    fails at once and [ws] keeps its value. *)
Theorem first_connect_outcome (events : list SocketEvent) (s : State) :
  wsAuthResolved s = false →
  completion_of (connectWebSocket (Fulfilled tt) events s)
  = match first_outcome CONNECTING events with Some b => Return b | None => Hang end ∧
  ∀ e, connectWebSocket (Rejected e) events s = (s, [], Return false).
Proof.
  intros Ha. split; [|done]. unfold connectWebSocket. exec.
  match goal with
  | |- context [await_connect events ?s0] =>
      pose proof (await_connect_first events s0 _ CONNECTING Ha eq_refl) as H;
      destruct (await_connect events s0) as [[? ?] ?]
  end.
  exact H.
Qed.

Lemma first_connect_outcome_witness :
  wsAuthResolved initial = false ∧
  completion_of
    (connectWebSocket (Fulfilled tt)
       [Open; ConnectTimeout; MessageEv (error "Invalid API key"); MessageEv auth_success]
       initial)
  = Return false.
Proof.
  split; [reflexivity|].
  destruct (first_connect_outcome
              [Open; ConnectTimeout; MessageEv (error "Invalid API key");
               MessageEv auth_success] initial eq_refl) as [H _].
  exact H.
Defined.

(** X9. The teardown of a stop command issued while recording. When the
    [STOP_CAPTURE] request is rejected nothing else happens: the socket
    gets no [stop] frame and is not closed, the offscreen document is not
    closed, and yet [isRecording] is cleared. When it is answered, the
    calls are, in this order: the request; if the socket is open, the
    [stop] frame and then whatever the handlers of the socket do during
    the wait (never a release, never a second [stop] frame); the closing
    of the socket if there is one; and then the rest, which holds no
    [stop] frame and no closing of the socket. [ws] is [null] afterwards. *)
Theorem stop_teardown_order (env : StopEnv) (s : State) :
  isRecording s = true →
  (∀ e, STOP_CAPTURE_reply env = Rejected e →
        stopRecording env s
        = (set_isRecording false s, [ToOffscreen STOP_CAPTURE], Return (success_false e))) ∧
  (∀ r, STOP_CAPTURE_reply env = Fulfilled r →
        ws (state_of (stopRecording env s)) = None ∧
        ∃ heard rest,
          Forall no_release heard ∧
          Forall (λ a, a ≠ WsSend stop ∧ a ≠ WsClose) rest ∧
          effects_of (stopRecording env s)
          = [ToOffscreen STOP_CAPTURE]
              ++ (if socket_open s then WsSend stop :: heard else [])
              ++ (if bool_decide (is_Some (ws s)) then [WsClose] else [])
              ++ rest).
Proof.
  intros Hr. unfold stopRecording, broadcastToPopup. exec. rewrite Hr. exec. split.
  - by intros e ->.
  - intros r ->. exec.
    assert (∀ s1 : State, ∃ rest,
              Forall (λ a, a ≠ WsSend stop ∧ a ≠ WsClose) rest ∧
              ((closeOffscreenDocument env s1 = (s1, rest, Return tt)
                ∧ close_error env = None)
               ∨ ∃ e, closeOffscreenDocument env s1 = (s1, rest, Throw e))) as Hc.
    { intros s1. destruct (closeOffscreenDocument_calls env s1) as (e2 & H2 & He).
      exists e2. split; [destruct He as [-> | ->]; by repeat constructor|].
      destruct (close_error env); [right; by eexists | by left]. }
    destruct (socket_open s) eqn:Ho; exec.
    + destruct (wait_final_notes_facts (final_wait env) s) as (s1 & e1 & -> & _ & W1 & F1).
      assert (bool_decide (is_Some (ws s1)) = bool_decide (is_Some (ws s))) as ->
          by (by apply bool_decide_ext).
      assert (is_Some (ws s)) as Hw.
      { unfold socket_open in Ho. by destruct (ws s). }
      rewrite (bool_decide_eq_true_2 _ Hw). exec.
      destruct (Hc (set_ws None s1)) as (rest & Fr & [[-> _]|[e ->]]); exec.
      * split; [done|]. exists e1, (rest ++ [ToPopup (STATUS "Recording stopped");
                                              ToPopup (CONNECTION_STATUS false)]).
        split; [done|]. split; [apply Forall_app; split; [done|]; by repeat constructor|].
        by rewrite ?app_nil_r, <- ?app_assoc.
      * split; [done|]. exists e1, rest. split; [done|]. split; [done|].
        by rewrite ?app_nil_r, <- ?app_assoc.
    + destruct (bool_decide (is_Some (ws s))) eqn:Hw; exec.
      * destruct (Hc (set_ws None s)) as (rest & Fr & [[-> _]|[e ->]]); exec.
        -- split; [done|]. exists [], (rest ++ [ToPopup (STATUS "Recording stopped");
                                                 ToPopup (CONNECTION_STATUS false)]).
           split; [done|]. split; [apply Forall_app; split; [done|]; by repeat constructor|].
           by rewrite ?app_nil_r, <- ?app_assoc.
        -- split; [done|]. exists [], rest. split; [done|]. split; [done|].
           by rewrite ?app_nil_r, <- ?app_assoc.
      * assert (ws s = None) as Hn.
        { apply bool_decide_eq_false in Hw. destruct (ws s); [|done].
          destruct Hw. by eexists. }
        destruct (Hc s) as (rest & Fr & [[-> _]|[e ->]]); exec.
        -- split; [done|]. exists [], (rest ++ [ToPopup (STATUS "Recording stopped");
                                                 ToPopup (CONNECTION_STATUS false)]).
           split; [done|]. split; [apply Forall_app; split; [done|]; by repeat constructor|].
           by rewrite ?app_nil_r, <- ?app_assoc.
        -- split; [done|]. exists [], rest. split; [done|]. split; [done|].
           by rewrite ?app_nil_r, <- ?app_assoc.
Qed.

Lemma stop_teardown_order_witness :
  isRecording recording_state = true ∧
  ws (state_of (stopRecording good_stop recording_state)) = None.
Proof.
  split; [reflexivity|].
  destruct (stop_teardown_order good_stop recording_state eq_refl) as [_ H].
  destruct (H _ eq_refl) as [Hw _]. exact Hw.
Defined.

Lemma relay_step (ev : Event) (s : State) :
  relay_only ev = true →
  step ev s = s ∧
  frames (effects_of (deliver ev s))
  = (if socket_open s then option_list (frame_of ev) else []).
Proof.
  destruct ev as [env|env|ev|m|]; try done; intros _; unfold step, deliver, frame_of.
  - unfold onAudioData. exec.
    destruct (bool_decide (msg_type m = "AUDIO_DATA") &&
              bool_decide (msg_target m = Some "background")); exec;
      [|by destruct (socket_open s)].
    by destruct (socket_open s).
  - unfold heartbeat. exec. by destruct (socket_open s).
Qed.

(** X10. Audio messages and heartbeats are relayed in the order in which
    they arrive and change nothing in the worker: while the socket is open
    every [AUDIO_DATA] message addressed to the background becomes one
    [audio] frame with its bytes and format, every heartbeat one [ping],
    nothing is dropped, duplicated or reordered; without an open socket no
    frame is sent at all. *)
Theorem relay_keeps_order (evs : list Event) (s : State) :
  Forall (λ ev, relay_only ev = true) evs →
  run evs s = s ∧
  frames (outputs evs s) = (if socket_open s then omap frame_of evs else []).
Proof.
  induction 1 as [|ev evs Hev _ IH]; [by destruct (socket_open s)|].
  destruct (relay_step ev s Hev) as [Hs Hf]. destruct IH as [IHs IHf].
  cbn [run foldl outputs omap list_omap]. unfold flip. unfold run in IHs.
  rewrite Hs. split; [exact IHs|].
  unfold frames in *. rewrite omap_app, Hf, IHf.
  destruct (socket_open s); [|done]. by destruct (frame_of ev).
Qed.

Lemma relay_keeps_order_witness :
  frames (outputs [AudioData (mkMessage "AUDIO_DATA" (Some "background") [Byte.x01] None);
                   Heartbeat;
                   AudioData (mkMessage "AUDIO_DATA" (Some "background") [Byte.x02]
                                        (Some "ogg"))]
                  recording_state)
  = [audio [Byte.x01] "webm"; ping; audio [Byte.x02] "ogg"].
Proof.
  destruct (relay_keeps_order
              [AudioData (mkMessage "AUDIO_DATA" (Some "background") [Byte.x01] None);
               Heartbeat;
               AudioData (mkMessage "AUDIO_DATA" (Some "background") [Byte.x02]
                                    (Some "ogg"))]
              recording_state) as [_ H]; [by repeat constructor|].
  exact H.
Defined.

Lemma substring_all (s : string) : String.substring 0 (String.length s) s = s.
Proof. induction s as [|c s IH]; [done|]. simpl. by rewrite IH. Qed.

Lemma replace_absent (pat by_ s : string) :
  includes pat s = false → replace pat by_ s = s.
Proof.
  induction s as [|c s IH]; simpl.
  - intros H. apply orb_false_elim in H as [-> _]. done.
  - intros H. apply orb_false_elim in H as [-> H]. by rewrite IH.
Qed.

Lemma prefix_empty (s : string) : String.prefix "" s = true.
Proof. by destruct s. Qed.

Lemma address_http (rest : string) :
  includes "https://" rest = false →
  replace "https://" "wss://" (replace "http://" "ws://" ("http://" +:+ rest))
  = "ws://" +:+ rest.
Proof.
  intros H.
  assert (replace "http://" "ws://" ("http://" +:+ rest) = "ws://" +:+ rest) as ->.
  { simpl. change ("" +:+ rest) with rest.
    by rewrite prefix_empty, Nat.sub_0_r, substring_all. }
  simpl. change ("" +:+ rest) with rest. by rewrite (replace_absent _ _ _ H).
Qed.

Lemma address_https (rest : string) :
  includes "http://" rest = false →
  replace "https://" "wss://" (replace "http://" "ws://" ("https://" +:+ rest))
  = "wss://" +:+ rest.
Proof.
  intros H.
  assert (replace "http://" "ws://" ("https://" +:+ rest) = "https://" +:+ rest) as ->.
  { simpl. change ("" +:+ rest) with rest. by rewrite (replace_absent _ _ _ H). }
  simpl. change ("" +:+ rest) with rest.
  by rewrite prefix_empty, Nat.sub_0_r, substring_all.
Qed.

(** X11. The address of the socket is the configured address with its
    scheme mapped, [http://] to [ws://] and [https://] to [wss://], and
    the path [/api/v1/stream] appended, as long as the rest of the address
    contains neither scheme string (each is replaced where it first
    occurs, wherever that is); an address with no scheme is used as it
    is. *)
Theorem socket_address_scheme (rest : string) :
  includes "http://" rest = false → includes "https://" rest = false →
  ∀ events s,
    (apiUrl s = "http://" +:+ rest →
     head (effects_of (connectWebSocket (Fulfilled tt) events s))
     = Some (WsNew (("ws://" +:+ rest) +:+ "/api/v1/stream"))) ∧
    (apiUrl s = "https://" +:+ rest →
     head (effects_of (connectWebSocket (Fulfilled tt) events s))
     = Some (WsNew (("wss://" +:+ rest) +:+ "/api/v1/stream"))) ∧
    (apiUrl s = rest →
     head (effects_of (connectWebSocket (Fulfilled tt) events s))
     = Some (WsNew (rest +:+ "/api/v1/stream"))).
Proof.
  intros Hh Hs events s.
  assert (∀ u, replace "https://" "wss://" (replace "http://" "ws://" (apiUrl s)) = u →
               head (effects_of (connectWebSocket (Fulfilled tt) events s))
               = Some (WsNew (u +:+ "/api/v1/stream"))) as Hgo.
  { intros u <-. unfold connectWebSocket. exec.
    match goal with
    | |- context [await_connect events ?s0] =>
        by destruct (await_connect events s0) as [[? ?] ?]
    end. }
  repeat split; intros E; apply Hgo; rewrite E.
  - by apply address_http.
  - by apply address_https.
  - by rewrite (replace_absent _ _ rest Hh), (replace_absent _ _ rest Hs).
Qed.

Lemma socket_address_scheme_witness :
  head (effects_of (connectWebSocket (Fulfilled tt) [] initial))
  = Some (WsNew "ws://localhost:8001/api/v1/stream").
Proof.
  destruct (socket_address_scheme "localhost:8001" eq_refl eq_refl [] initial)
    as (H & _ & _).
  exact (H eq_refl).
Defined.

Lemma try_catch_answers {A} (m : Run A) (f : string → A) (s : State) (e : string) :
  completion_of (try_catch m (λ e, mret (f e)) s) ≠ Throw e.
Proof. unfold try_catch. by destruct (m s) as [[? ?] []]. Qed.

Lemma startRecording_no_throw (env : StartEnv) (s : State) (e : string) :
  completion_of (startRecording env s) ≠ Throw e.
Proof.
  unfold startRecording. unfold mbind at 1, Exec_bind at 1, get.
  destruct (isRecording s); [done|].
  match goal with
  | |- context [try_catch ?m ?h s] =>
      pose proof (try_catch_answers m success_false s e) as H;
      destruct (try_catch m h s) as [[? ?] ?]
  end.
  exact H.
Qed.



End SessionProperties.

(** ** The relay from the encoder to the socket *)

Module RelayProperties.

(** X13. A chunk travels unchanged from the encoder to the service: what
    the [onstop] handler of a flushed recorder sends is a message that
    the audio listener of the worker accepts, and while the socket is open
    the listener turns it into one [audio] frame that carries the bytes
    the recorder delivered, tagged [webm]; without an open socket the
    chunk is dropped. *)
Theorem chunk_reaches_service
        (d : Offscreen.Doc) (r : nat) (rc : Offscreen.Recorder) (data : Blob)
        (s : Background.State) :
  Offscreen.recorders d !! r = Some rc → Offscreen.rec_flushing rc = true →
  0 < length data →
  ∃ m, Offscreen.output (Offscreen.Flushed r data) d = [Offscreen.SendMessage m] ∧
       state_of (Background.onAudioData m s) = s ∧
       Background.frames (effects_of (Background.onAudioData m s))
       = (if Background.socket_open s
          then [Background.audio (concat (Offscreen.rec_chunks rc ++ [data])) "webm"]
          else []).
Proof.
  intros Er Ef Hd. rewrite OffscreenFacts.Flushed_output, Er, Ef.
  unfold Offscreen.flush_messages, Offscreen.flushed_chunks.
  rewrite (bool_decide_eq_true_2 _ Hd).
  rewrite bool_decide_eq_true_2 by (rewrite length_app; simpl; lia).
  eexists. split; [reflexivity|].
  unfold Background.onAudioData. simpl. BackgroundFacts.exec.
  by destruct (Background.socket_open s).
Qed.

Lemma chunk_reaches_service_witness :
  ∃ m, Offscreen.output (Offscreen.Flushed 0 [Byte.x1a; Byte.x45]) Offscreen.rotated_once
       = [Offscreen.SendMessage m] ∧
       Background.frames
         (effects_of (Background.onAudioData m Background.recording_state))
       = [Background.audio [Byte.x1a; Byte.x45] "webm"].
Proof.
  destruct (chunk_reaches_service Offscreen.rotated_once 0
              (Offscreen.mkRecorder 7 Offscreen.inactive [] true)
              [Byte.x1a; Byte.x45] Background.recording_state eq_refl eq_refl)
    as (m & Ho & _ & Hf); [simpl; lia|].
  exists m. split; [exact Ho | exact Hf].
Defined.

End RelayProperties.
